(** * Yamaha OPL2 / OPLL: operator envelope engine and OPLL front end

    A shallow embedding of [Components/OPL2/Implementation/Operator.cpp] and of
    the OPLL part of [Components/OPL2/OPL2.cpp], with the properties of the
    envelope generator, the phase accumulator, the output composition and the
    OPLL register file that the specification states. *)

From Stdlib Require Import ZArith Lia Bool List.
From stdpp Require Import base list.
Import ListNotations.

Local Open Scope Z_scope.

(** ** 32-bit [int] arithmetic

    A C++ [int] is a [Z] in [-2^31, 2^31); arithmetic wraps around (two's
    complement).  [>>] on an [int] is the arithmetic shift, which is
    [Z.shiftr].  A left shift whose count is negative or at least 32 has no
    defined value in C++: [shl] takes the value such a shift produces on the
    machine at hand as its first argument, and the theorems below hold for
    every choice of it. *)
Module Int32.

Definition min_int : Z := - 2 ^ 31.
Definition max_int : Z := 2 ^ 31 - 1.

Definition in_range (z : Z) : Prop := min_int <= z <= max_int.

Definition wrap (z : Z) : Z := (z + 2 ^ 31) mod 2 ^ 32 - 2 ^ 31.

Definition add (a b : Z) : Z := wrap (a + b).
Definition sub (a b : Z) : Z := wrap (a - b).
Definition mul (a b : Z) : Z := wrap (a * b).

Definition shift_count_ok (n : Z) : bool := (0 <=? n) && (n <? 32).

Definition shl (undefined : Z -> Z -> Z) (a n : Z) : Z :=
  if shift_count_ok n then wrap (a * 2 ^ n) else undefined a n.

End Int32.

(** ** Operator.cpp: configuration, runtime state and [Operator::update] *)
Module Operator.

(** [Operator::Waveform], in declaration order, so that [Waveform(value & 3)]
    is [waveform_of_int]. *)
Inductive Waveform : Type := Sine | HalfSine | AbsSine | PulseSine.

Inductive ADSRPhase : Type := Attack | Decay | Sustain | Release.

Definition ADSRPhase_eqb (a b : ADSRPhase) : bool :=
  match a, b with
  | Attack, Attack | Decay, Decay | Sustain, Sustain | Release, Release => true
  | _, _ => false
  end.

(** The (magnitude, sign) pair the table provider returns. *)
Record LogSign : Type := mkLogSign { logsin : Z; sign : Z }.

(** The members of [class Operator] that Operator.cpp reads and writes; the
    numeric ones are [int]s, the switches [bool]s. *)
Record Operator : Type := mkOperator {
  apply_amplitude_modulation_ : bool;
  apply_vibrato_ : bool;
  use_sustain_level_ : bool;
  key_scaling_rate_ : bool;
  frequency_multiple_ : Z;
  attenuation_ : Z;
  level_key_scaling_ : Z;
  attack_rate_ : Z;
  decay_rate_ : Z;
  sustain_level_ : Z;
  release_rate_ : Z;
  waveform_ : Waveform
}.

(** The members of [struct OperatorState]; the counters and attenuations are
    [int]s. *)
Record OperatorState : Type := mkOperatorState {
  attenuation : LogSign;
  raw_phase_ : Z;
  adsr_phase_ : ADSRPhase;
  time_in_phase_ : Z;
  adsr_attenuation_ : Z;
  last_key_on_ : bool
}.

(** [struct OperatorOverrides]; its fields are [attenuation] and
    [use_sustain_level] in the source. *)
Record OperatorOverrides : Type := mkOperatorOverrides {
  override_attenuation : Z;
  override_use_sustain_level : bool
}.

(** *** Register decoders *)

(** A [uint8_t] bit test assigned to a [bool]. *)
Definition flag (value mask : Z) : bool := negb (Z.land value mask =? 0).

Definition waveform_of_int (v : Z) : Waveform :=
  match v with
  | 0 => Sine
  | 1 => HalfSine
  | 2 => AbsSine
  | _ => PulseSine
  end.

Definition int_of_waveform (w : Waveform) : Z :=
  match w with Sine => 0 | HalfSine => 1 | AbsSine => 2 | PulseSine => 3 end.

Definition set_attack_decay (op : Operator) (value : Z) : Operator :=
  mkOperator
    (apply_amplitude_modulation_ op) (apply_vibrato_ op) (use_sustain_level_ op)
    (key_scaling_rate_ op) (frequency_multiple_ op) (attenuation_ op)
    (level_key_scaling_ op)
    (Z.shiftr (Z.land value 0xf0) 2)
    (Z.shiftl (Z.land value 0x0f) 2)
    (sustain_level_ op) (release_rate_ op) (waveform_ op).

Definition set_sustain_release (op : Operator) (value : Z) : Operator :=
  mkOperator
    (apply_amplitude_modulation_ op) (apply_vibrato_ op) (use_sustain_level_ op)
    (key_scaling_rate_ op) (frequency_multiple_ op) (attenuation_ op)
    (level_key_scaling_ op) (attack_rate_ op) (decay_rate_ op)
    (Z.shiftr (Z.land value 0xf0) 4)
    (Z.shiftl (Z.land value 0x0f) 2)
    (waveform_ op).

Definition set_scaling_output (op : Operator) (value : Z) : Operator :=
  mkOperator
    (apply_amplitude_modulation_ op) (apply_vibrato_ op) (use_sustain_level_ op)
    (key_scaling_rate_ op) (frequency_multiple_ op)
    (Z.land value 0x3f)
    (Z.shiftr value 6)
    (attack_rate_ op) (decay_rate_ op) (sustain_level_ op) (release_rate_ op)
    (waveform_ op).

Definition set_waveform (op : Operator) (value : Z) : Operator :=
  mkOperator
    (apply_amplitude_modulation_ op) (apply_vibrato_ op) (use_sustain_level_ op)
    (key_scaling_rate_ op) (frequency_multiple_ op) (attenuation_ op)
    (level_key_scaling_ op) (attack_rate_ op) (decay_rate_ op)
    (sustain_level_ op) (release_rate_ op)
    (waveform_of_int (Z.land value 3)).

Definition set_am_vibrato_hold_sustain_ksr_multiple (op : Operator) (value : Z)
  : Operator :=
  mkOperator
    (flag value 0x80) (flag value 0x40) (flag value 0x20) (flag value 0x10)
    (Z.land value 0xf)
    (attenuation_ op) (level_key_scaling_ op) (attack_rate_ op) (decay_rate_ op)
    (sustain_level_ op) (release_rate_ op) (waveform_ op).

(** The ranges the decoders leave the numeric fields in (a rate is a nibble
    shifted left by two).  An operator that register writes have configured
    satisfies [decoded]. *)
Record decoded (op : Operator) : Prop := {
  decoded_multiple : 0 <= frequency_multiple_ op <= 15;
  decoded_attenuation : 0 <= attenuation_ op <= 63;
  decoded_attack : 0 <= attack_rate_ op <= 60 /\ attack_rate_ op mod 4 = 0;
  decoded_decay : 0 <= decay_rate_ op <= 60 /\ decay_rate_ op mod 4 = 0;
  decoded_sustain : 0 <= sustain_level_ op <= 15;
  decoded_release : 0 <= release_rate_ op <= 60 /\ release_rate_ op mod 4 = 0
}.

(** *** State updates *)

Definition set_output (s : OperatorState) (a : LogSign) : OperatorState :=
  mkOperatorState a (raw_phase_ s) (adsr_phase_ s) (time_in_phase_ s)
    (adsr_attenuation_ s) (last_key_on_ s).

Definition set_raw_phase (s : OperatorState) (p : Z) : OperatorState :=
  mkOperatorState (attenuation s) p (adsr_phase_ s) (time_in_phase_ s)
    (adsr_attenuation_ s) (last_key_on_ s).

Definition set_adsr_phase (s : OperatorState) (p : ADSRPhase) : OperatorState :=
  mkOperatorState (attenuation s) (raw_phase_ s) p (time_in_phase_ s)
    (adsr_attenuation_ s) (last_key_on_ s).

Definition set_time_in_phase (s : OperatorState) (t : Z) : OperatorState :=
  mkOperatorState (attenuation s) (raw_phase_ s) (adsr_phase_ s) t
    (adsr_attenuation_ s) (last_key_on_ s).

Definition set_adsr_attenuation (s : OperatorState) (a : Z) : OperatorState :=
  mkOperatorState (attenuation s) (raw_phase_ s) (adsr_phase_ s)
    (time_in_phase_ s) a (last_key_on_ s).

Definition set_last_key_on (s : OperatorState) (k : bool) : OperatorState :=
  mkOperatorState (attenuation s) (raw_phase_ s) (adsr_phase_ s)
    (time_in_phase_ s) (adsr_attenuation_ s) k.

(** *** [Operator::is_audible] *)

Definition is_audible (op : Operator) (state : OperatorState)
    (overrides : option OperatorOverrides) : bool :=
  let otherwise := negb (adsr_attenuation_ state =? 511) in
  if ADSRPhase_eqb (adsr_phase_ state) Release then
    match overrides with
    | Some o => if override_attenuation o =? 0xf then false else otherwise
    | None => if attenuation_ op =? 0x3f then false else otherwise
    end
  else otherwise.

(** The static attenuation, or the override attenuation when overrides are
    supplied, is at its maximum. *)
Definition attenuation_at_maximum (op : Operator)
    (overrides : option OperatorOverrides) : Prop :=
  match overrides with
  | Some o => override_attenuation o = 0xf
  | None => attenuation_ op = 0x3f
  end.

(** *** [Operator::update] *)

Definition multipliers : list Z :=
  [1; 2; 4; 6; 8; 10; 12; 14; 16; 18; 20; 20; 24; 24; 30; 30].

Definition waveforms : list (list Z) :=
  [ [1023; 1023; 1023; 1023];
    [511; 511; 0; 0];
    [511; 511; 511; 511];
    [255; 0; 255; 0] ].

(** A read of a constant table; every index in the source is masked into the
    table's range. *)
Definition table (l : list Z) (i : Z) : Z := nth (Z.to_nat i) l 0.

Definition waveform_mask (w : Waveform) (quadrant : Z) : Z :=
  table (nth (Z.to_nat (int_of_waveform w)) waveforms []) quadrant.

Section Update.

(** [negative_log_sin] of Tables.h, the table provider. *)
Variable negative_log_sin : Z -> LogSign.

(** The value of a left shift whose count is out of range. *)
Variable shl_undefined : Z -> Z -> Z.

Local Abbreviation shl := (Int32.shl shl_undefined).

(** [multipliers[frequency_multiple_] * channel_period << channel_octave]:
    [*] binds tighter than [<<]. *)
Definition phase_increment (op : Operator) (channel_period channel_octave : Z)
  : Z :=
  shl (Int32.mul (table multipliers (frequency_multiple_ op)) channel_period)
      channel_octave.

(** [(state.raw_phase_ >> 12) + phase_offset] *)
Definition phase_of (raw_phase phase_offset : Z) : Z :=
  Int32.add (Z.shiftr raw_phase 12) phase_offset.

(** [phase & waveforms[int(waveform_)][(phase >> 8) & 3]] *)
Definition masked_phase (op : Operator) (phase : Z) : Z :=
  Z.land phase (waveform_mask (waveform_ op) (Z.land (Z.shiftr phase 8) 3)).

(** The waveform lookup of this tick, from the updated raw phase. *)
Definition waveform_lookup (op : Operator) (raw_phase phase_offset : Z)
  : LogSign :=
  negative_log_sin (masked_phase op (phase_of raw_phase phase_offset)).

(** Key-on logic (the [if(!key_on) ... else if(!state.last_key_on_) ...]
    block and the assignment to [last_key_on_]). *)
Definition key_on_logic (s : OperatorState) (key_on : bool) : OperatorState :=
  let s1 :=
    if negb key_on then set_time_in_phase (set_adsr_phase s Release) 0
    else if negb (last_key_on_ s)
         then set_time_in_phase (set_adsr_phase s Attack) 0
         else s in
  set_last_key_on s1 key_on.

(** [1 << (14 - (attack_rate >> 2))] *)
Definition attack_sample_length (attack_rate : Z) : Z :=
  shl 1 (Int32.sub 14 (Z.shiftr attack_rate 2)).

(** The attenuation after the [if(attack_rate >= 56) ... else ...] statement of
    the Attack case. *)
Definition attack_attenuation (op : Operator) (s : OperatorState) : Z :=
  let attack_rate := attack_rate_ op in
  let a := adsr_attenuation_ s in
  if 56 <=? attack_rate then
    Int32.sub (Int32.sub a (Z.shiftr a 2)) 1
  else
    if Z.land (time_in_phase_ s) (Int32.sub (attack_sample_length attack_rate) 1)
       =? 0
    then Int32.sub (Int32.sub a (Z.shiftr a 3)) 1
    else a.

(** [case ADSRPhase::Attack] *)
Definition attack (op : Operator) (s : OperatorState) : OperatorState :=
  let a := attack_attenuation op s in
  if (60 <? attack_rate_ op) || (a <=? 0)
  then set_adsr_phase (set_adsr_attenuation s 0) Decay
  else set_adsr_attenuation s a.

(** The rate that governs the Decay/Release case. *)
Definition decrease_rate (op : Operator) (s : OperatorState) : Z :=
  if ADSRPhase_eqb (adsr_phase_ s) Decay then decay_rate_ op
  else release_rate_ op.

(** The shift count of the [default] branch: [(decrease_rate >> 2) - 4]. *)
Definition decrease_shift (rate : Z) : Z := Int32.sub (Z.shiftr rate 2) 4.

(** The attenuation after the [if(decrease_rate) { switch ... }] statement. *)
Definition decrease_attenuation (op : Operator) (s : OperatorState) : Z :=
  let rate := decrease_rate op s in
  let a := adsr_attenuation_ s in
  if rate =? 0 then a
  else
    match Z.shiftr rate 2 with
    | 1 => Int32.add a 4
    | 2 => Int32.add a 2
    | _ =>
        let sample_length := shl 1 (decrease_shift rate) in
        if Z.land (time_in_phase_ s) (Int32.sub sample_length 1) =? 0
        then Int32.add a 1
        else a
    end.

(** [(overrides && overrides->use_sustain_level) || use_sustain_level_] *)
Definition holds_sustain (op : Operator) (overrides : option OperatorOverrides)
  : bool :=
  match overrides with
  | Some o => override_use_sustain_level o
  | None => false
  end || use_sustain_level_ op.

(** [case ADSRPhase::Release: case ADSRPhase::Decay:] *)
Definition decay_release (op : Operator) (overrides : option OperatorOverrides)
    (s : OperatorState) : OperatorState :=
  let a := Z.min (decrease_attenuation op s) 511 in
  let s1 := set_adsr_attenuation s a in
  let level := shl (sustain_level_ op) 5 in
  if ADSRPhase_eqb (adsr_phase_ s1) Decay && (level <=? a)
  then set_adsr_phase (set_adsr_attenuation s1 level)
         (if holds_sustain op overrides then Sustain else Release)
  else s1.

(** The [switch(current_phase)] statement. *)
Definition envelope (op : Operator) (overrides : option OperatorOverrides)
    (s : OperatorState) : OperatorState :=
  match adsr_phase_ s with
  | Attack => attack op s
  | Release | Decay => decay_release op overrides s
  | Sustain => s
  end.

(** [if(state.adsr_phase_ == current_phase) ++time_in_phase_; else ... = 0;] *)
Definition count_time (current_phase : ADSRPhase) (s : OperatorState)
  : OperatorState :=
  if ADSRPhase_eqb (adsr_phase_ s) current_phase
  then set_time_in_phase s (Int32.add (time_in_phase_ s) 1)
  else set_time_in_phase s 0.

(** The final [if(overrides) ... else ...]: both branches add to
    [state.attenuation.logsin]. *)
Definition combine (op : Operator) (overrides : option OperatorOverrides)
    (s : OperatorState) : OperatorState :=
  let out := attenuation s in
  let extra :=
    match overrides with
    | Some o =>
        Int32.add (adsr_attenuation_ s) (shl (override_attenuation o) 4)
    | None =>
        Int32.add (shl (adsr_attenuation_ s) 3) (shl (attenuation_ op) 5)
    end in
  set_output s (mkLogSign (Int32.add (logsin out) extra) (sign out)).

(** The first two statements of [update]: the raw phase, then the waveform
    lookup into [state.attenuation]. *)
Definition advance_phase (op : Operator) (state : OperatorState)
    (channel_period channel_octave phase_offset : Z) : OperatorState :=
  let s1 :=
    set_raw_phase state
      (Int32.add (raw_phase_ state)
         (phase_increment op channel_period channel_octave)) in
  set_output s1 (waveform_lookup op (raw_phase_ s1) phase_offset).

Definition update (op : Operator) (state : OperatorState) (key_on : bool)
    (channel_period channel_octave phase_offset : Z)
    (overrides : option OperatorOverrides) : OperatorState :=
  let s2 := advance_phase op state channel_period channel_octave phase_offset in
  let s3 := key_on_logic s2 key_on in
  let current_phase := adsr_phase_ s3 in
  let s4 := envelope op overrides s3 in
  let s5 := count_time current_phase s4 in
  combine op overrides s5.

(** One tick's inputs, and a run of ticks with a fixed configuration. *)
Record Tick : Type := mkTick {
  tick_key_on : bool;
  tick_period : Z;
  tick_octave : Z;
  tick_phase_offset : Z
}.

Definition step (op : Operator) (overrides : option OperatorOverrides)
    (s : OperatorState) (t : Tick) : OperatorState :=
  update op s (tick_key_on t) (tick_period t) (tick_octave t)
    (tick_phase_offset t) overrides.

Definition run (op : Operator) (overrides : option OperatorOverrides)
    (s : OperatorState) (ticks : list Tick) : OperatorState :=
  fold_left (step op overrides) ticks s.

(** Whether the Attack case subtracts on this tick: always from rate 56 on,
    otherwise on the ticks the sample length selects. *)
Definition attack_steps (op : Operator) (s : OperatorState) : bool :=
  (56 <=? attack_rate_ op)
  || (Z.land (time_in_phase_ s)
        (Int32.sub (attack_sample_length (attack_rate_ op)) 1) =? 0).

(** The state the [switch] of [update] starts from. *)
Definition at_switch (op : Operator) (s : OperatorState) (t : Tick)
  : OperatorState :=
  key_on_logic
    (advance_phase op s (tick_period t) (tick_octave t) (tick_phase_offset t))
    (tick_key_on t).

(** In Decay the attenuation has not passed the level Decay ends at. *)
Definition below_sustain (op : Operator) (s : OperatorState) : Prop :=
  adsr_phase_ s = Decay -> adsr_attenuation_ s <= shl (sustain_level_ op) 5.

(** Every tick of the run is taken in Decay or Release with a governing rate
    of 0. *)
Fixpoint coasting (op : Operator) (overrides : option OperatorOverrides)
    (s : OperatorState) (ticks : list Tick) : Prop :=
  match ticks with
  | [] => True
  | t :: rest =>
      let s3 := at_switch op s t in
      (adsr_phase_ s3 = Decay \/ adsr_phase_ s3 = Release)
      /\ decrease_rate op s3 = 0
      /\ coasting op overrides (step op overrides s t) rest
  end.

(** The magnitudes of the log-sin table leave room for the envelope and the
    channel attenuation in an [int]. *)
Definition table_fits : Prop :=
  forall p, - 2 ^ 30 <= logsin (negative_log_sin p) <= 2 ^ 30.

(** The envelope attenuation is on a 0 to 511 scale. *)
Definition envelope_in_range (s : OperatorState) : Prop :=
  0 <= adsr_attenuation_ s <= 511.

(** The states a voice reaches from [init]: between two ticks, register
    writes may reconfigure the operator (or, on the OPLL, select another
    instrument), so every tick has its own decoded configuration. *)
Inductive reachable (init : OperatorState) : OperatorState -> Prop :=
| reachable_init : reachable init init
| reachable_update s op key_on channel_period channel_octave phase_offset
    overrides :
    reachable init s ->
    decoded op ->
    reachable init
      (update op s key_on channel_period channel_octave phase_offset overrides).

End Update.

(** *** Sample values

    A silent table, a machine whose out-of-range shifts give 0, an operator
    with every register at 0 and a released voice at full attenuation. *)
Definition silent_table (p : Z) : LogSign := mkLogSign 0 1.

Definition zero_shift (a n : Z) : Z := 0.

Definition zero_operator : Operator :=
  mkOperator false false false false 0 0 0 0 0 0 0 Sine.

Definition idle_state : OperatorState :=
  mkOperatorState (mkLogSign 0 1) 0 Release 0 511 false.

(** Fastest attack, decay rate nibble 1, sustain level 15. *)
Definition sustained_operator : Operator :=
  set_sustain_release (set_attack_decay zero_operator 0xf1) 0xf0.

(** The same voice after two register writes: sustain level 1, decay rate 0. *)
Definition lowered_operator : Operator :=
  set_attack_decay (set_sustain_release sustained_operator 0x10) 0xf0.

Definition key_held : Tick := mkTick true 0 0 0.

Definition key_off : Tick := mkTick false 0 0 0.

(** *** The envelope as a state machine *)

(** The phases the [switch] of [update] can leave a voice in, by the phase it
    starts from. *)
Definition may_follow (p q : ADSRPhase) : bool :=
  match p, q with
  | Attack, Attack | Attack, Decay => true
  | Decay, Decay | Decay, Sustain | Decay, Release => true
  | Sustain, Sustain => true
  | Release, Release => true
  | _, _ => false
  end.

(** What the Decay/Release case adds on a tick whose counter of ticks in
    phase is 0: nothing at rate 0, 4 and 2 at [rate >> 2] of 1 and 2, and 1
    in the [default] branch, where [0 & (sample_length - 1)] is 0. *)
Definition first_tick_step (rate : Z) : Z :=
  if rate =? 0 then 0
  else match Z.shiftr rate 2 with
       | 1 => 4
       | 2 => 2
       | _ => 1
       end.

(** The Attack step of a tick whose counter is 0, before the exit test. *)
Definition first_attack_step (op : Operator) (a : Z) : Z :=
  if 56 <=? attack_rate_ op then a - a / 4 - 1 else a - a / 8 - 1.

End Operator.

(** ** OPL2.cpp: the OPLL front end *)
Module OPLL.

Import Operator.

Section Chip.

(** [Yamaha::OPL::Channel] of Channel.hpp: its state and the two decoders the
    OPLL register file calls. *)
Variable ChannelBase : Type.
Variable set_frequency_low : ChannelBase -> Z -> ChannelBase.
Variable set_9bit_frequency_octave_key_on : ChannelBase -> Z -> ChannelBase.

(** The patch set arrays, 8 bytes per instrument. *)
Variable opll_patch_set : list Z.
Variable vrc7_patch_set : list Z.
Variable percussion_patch_set : list Z.

(** [OPLL::Channel]: the base channel, [modulator] as an index into
    [operators_] (the carrier is [modulator + 1]), and the overrides. *)
Record Channel : Type := mkChannel {
  base : ChannelBase;
  modulator : Z;
  overrides : OperatorOverrides;
  level : Z
}.

(** A deferred closure of [write_register]: it captures [address] and
    [value]. *)
Record Task : Type := mkTask { task_address : Z; task_value : Z }.

Record OPLL : Type := mkOPLL {
  task_queue_ : list Task;
  depth_rhythm_control_ : Z;
  csm_keyboard_split_ : Z;
  waveform_enable_ : bool;
  selected_register_ : Z;
  operators_ : list Operator;
  channels_ : list Channel;
  rhythm_overrides_ : list OperatorOverrides;
  custom_instrument_ : list Z;
  audio_divider_ : Z;
  audio_offset_ : Z;
  total_volume_ : Z
}.

Definition set_task_queue (o : OPLL) (q : list Task) : OPLL :=
  mkOPLL q (depth_rhythm_control_ o) (csm_keyboard_split_ o)
    (waveform_enable_ o) (selected_register_ o) (operators_ o) (channels_ o)
    (rhythm_overrides_ o) (custom_instrument_ o) (audio_divider_ o)
    (audio_offset_ o) (total_volume_ o).

Definition set_depth_rhythm_control (o : OPLL) (v : Z) : OPLL :=
  mkOPLL (task_queue_ o) v (csm_keyboard_split_ o)
    (waveform_enable_ o) (selected_register_ o) (operators_ o) (channels_ o)
    (rhythm_overrides_ o) (custom_instrument_ o) (audio_divider_ o)
    (audio_offset_ o) (total_volume_ o).

Definition set_selected_register (o : OPLL) (v : Z) : OPLL :=
  mkOPLL (task_queue_ o) (depth_rhythm_control_ o) (csm_keyboard_split_ o)
    (waveform_enable_ o) v (operators_ o) (channels_ o)
    (rhythm_overrides_ o) (custom_instrument_ o) (audio_divider_ o)
    (audio_offset_ o) (total_volume_ o).

Definition set_operators (o : OPLL) (ops : list Operator) : OPLL :=
  mkOPLL (task_queue_ o) (depth_rhythm_control_ o) (csm_keyboard_split_ o)
    (waveform_enable_ o) (selected_register_ o) ops (channels_ o)
    (rhythm_overrides_ o) (custom_instrument_ o) (audio_divider_ o)
    (audio_offset_ o) (total_volume_ o).

Definition set_channels (o : OPLL) (cs : list Channel) : OPLL :=
  mkOPLL (task_queue_ o) (depth_rhythm_control_ o) (csm_keyboard_split_ o)
    (waveform_enable_ o) (selected_register_ o) (operators_ o) cs
    (rhythm_overrides_ o) (custom_instrument_ o) (audio_divider_ o)
    (audio_offset_ o) (total_volume_ o).

Definition set_rhythm_overrides (o : OPLL) (r : list OperatorOverrides) : OPLL :=
  mkOPLL (task_queue_ o) (depth_rhythm_control_ o) (csm_keyboard_split_ o)
    (waveform_enable_ o) (selected_register_ o) (operators_ o) (channels_ o)
    r (custom_instrument_ o) (audio_divider_ o)
    (audio_offset_ o) (total_volume_ o).

Definition set_custom_instrument (o : OPLL) (c : list Z) : OPLL :=
  mkOPLL (task_queue_ o) (depth_rhythm_control_ o) (csm_keyboard_split_ o)
    (waveform_enable_ o) (selected_register_ o) (operators_ o) (channels_ o)
    (rhythm_overrides_ o) c (audio_divider_ o)
    (audio_offset_ o) (total_volume_ o).

Definition set_audio_divider (o : OPLL) (d : Z) : OPLL :=
  mkOPLL (task_queue_ o) (depth_rhythm_control_ o) (csm_keyboard_split_ o)
    (waveform_enable_ o) (selected_register_ o) (operators_ o) (channels_ o)
    (rhythm_overrides_ o) (custom_instrument_ o) d
    (audio_offset_ o) (total_volume_ o).

Definition set_base (c : Channel) (b : ChannelBase) : Channel :=
  mkChannel b (modulator c) (overrides c) (level c).

Definition set_modulator (c : Channel) (m : Z) : Channel :=
  mkChannel (base c) m (overrides c) (level c).

Definition set_overrides (c : Channel) (ov : OperatorOverrides) : Channel :=
  mkChannel (base c) (modulator c) ov (level c).

Definition set_override_attenuation (ov : OperatorOverrides) (a : Z)
  : OperatorOverrides :=
  mkOperatorOverrides a (override_use_sustain_level ov).

Definition set_override_use_sustain_level (ov : OperatorOverrides) (b : bool)
  : OperatorOverrides :=
  mkOperatorOverrides (override_attenuation ov) b.

(** [data[i]] *)
Definition byte_at (data : list Z) (i : nat) : Z := nth i data 0.

(** [operators_[i].f(...)]: an update in place of one slot. *)
Definition on_operator (i : Z) (f : Operator -> Operator) (o : OPLL) : OPLL :=
  set_operators o (alter f (Z.to_nat i) (operators_ o)).

(** [channels_[i]. ... = ...] *)
Definition on_channel (i : Z) (f : Channel -> Channel) (o : OPLL) : OPLL :=
  set_channels o (alter f (Z.to_nat i) (channels_ o)).

Definition on_rhythm_override (i : Z)
    (f : OperatorOverrides -> OperatorOverrides) (o : OPLL) : OPLL :=
  set_rhythm_overrides o (alter f (Z.to_nat i) (rhythm_overrides_ o)).

(** [OPLL::setup_fixed_instrument]: the modulator is [operators_[number * 2]],
    the carrier [operators_[number * 2 + 1]]; the statements are kept in the
    source's order. *)
Definition setup_fixed_instrument (number : Z) (data : list Z) (o : OPLL)
  : OPLL :=
  let modulator := number * 2 in
  let carrier := number * 2 + 1 in
  let o := on_operator modulator
             (fun m => set_am_vibrato_hold_sustain_ksr_multiple m (byte_at data 0)) o in
  let o := on_operator carrier
             (fun c => set_am_vibrato_hold_sustain_ksr_multiple c (byte_at data 1)) o in
  let o := on_operator modulator
             (fun m => set_scaling_output m (byte_at data 2)) o in
  let o := on_operator modulator
             (fun m => set_waveform m (Z.land (Z.shiftr (byte_at data 3) 3) 1)) o in
  let o := on_operator carrier
             (fun c => set_waveform c (Z.land (Z.shiftr (byte_at data 3) 4) 1)) o in
  let o := on_operator modulator
             (fun m => set_attack_decay m (byte_at data 4)) o in
  let o := on_operator carrier
             (fun c => set_attack_decay c (byte_at data 5)) o in
  let o := on_operator modulator
             (fun m => set_sustain_release m (byte_at data 6)) o in
  on_operator carrier
    (fun c => set_sustain_release c (byte_at data 7)) o.

(** The body of the closure [OPLL::write_register] defers.  The [default]
    case of the switch only prints. *)
Definition write_register_task (address value : Z) (o : OPLL) : OPLL :=
  if address <? 8 then
    let o := set_custom_instrument o
               (<[Z.to_nat address := value]> (custom_instrument_ o)) in
    setup_fixed_instrument 0 (custom_instrument_ o) o
  else if address =? 0xe then
    set_depth_rhythm_control o (Z.land value 0x3f)
  else
    let index := Z.land address 0xf in
    if 8 <? index then o
    else
      match Z.land address 0xf0 with
      | 0x30 =>
          let o := on_channel index
                     (fun c => set_overrides c
                        (set_override_attenuation (overrides c) (Z.land value 0xf))) o in
          let o := on_channel index
                     (fun c => set_modulator c (Z.shiftr value 4 * 2)) o in
          if 6 <=? index then
            let o := on_rhythm_override ((index - 6) * 2 + 0)
                       (fun r => set_override_attenuation r (Z.shiftr value 4)) o in
            on_rhythm_override ((index - 6) * 2 + 1)
              (fun r => set_override_attenuation r (Z.land value 0xf)) o
          else o
      | 0x10 =>
          on_channel index (fun c => set_base c (set_frequency_low (base c) value)) o
      | 0x20 =>
          let o := on_channel index
                     (fun c => set_base c
                        (set_9bit_frequency_octave_key_on (base c) value)) o in
          on_channel index
            (fun c => set_overrides c
               (set_override_use_sustain_level (overrides c)
                  (flag value 0x20))) o
      | _ => o
      end.

(** [OPLL::write_register]: every write goes to the audio queue. *)
Definition write_register (address value : Z) (o : OPLL) : OPLL :=
  set_task_queue o (task_queue_ o ++ [mkTask address value]).

(** [OPLBase<Child>::write] *)
Definition write (address value : Z) (o : OPLL) : OPLL :=
  if negb (Z.land address 1 =? 0)
  then write_register (selected_register_ o) value o
  else set_selected_register o value.

(** Modelled from the spec: [DeferringAsyncTaskQueue::perform] of
    Concurrency/AsyncTaskQueue.hpp is not part of the sources at hand; the
    render actor drains the whole queue and applies every command in
    submission order. *)
Definition perform (o : OPLL) : OPLL :=
  fold_left (fun o t => write_register_task (task_address t) (task_value t) o)
    (task_queue_ o) (set_task_queue o []).

(** The constructor's loops. *)
Definition install_fixed_instruments (patch_set : list Z) (o : OPLL) : OPLL :=
  fold_left
    (fun o c => setup_fixed_instrument (Z.of_nat c + 1) (drop (8 * c) patch_set) o)
    (seq 0 15) o.

Definition install_rhythm_patches (o : OPLL) : OPLL :=
  fold_left
    (fun o c =>
       setup_fixed_instrument (Z.of_nat c + 16) (drop (c * 8) percussion_patch_set) o)
    (seq 0 3) o.

Definition set_default_modulators (o : OPLL) : OPLL :=
  fold_left (fun o c => on_channel (Z.of_nat c) (fun ch => set_modulator ch 0) o)
    (seq 0 9) o.

(** [assert(e)] of [<cassert>]: whether execution goes on past it.  When the
    translation unit is compiled with [NDEBUG] defined the macro expands to
    nothing and [e] is not evaluated; otherwise a false [e] aborts the
    program. *)
Definition assert_passes (ndebug : bool) (e : bool) : bool := ndebug || e.

(** [OPLL::OPLL], in a build with or without [NDEBUG].  [members] is the
    object after the default member initialisers of OPL2.hpp, Operator.hpp
    and Channel.hpp have run; the member initialiser list stores
    [audio_divider], then the body starts with [assert(audio_divider <= 4)].
    A failed assertion aborts: no object is constructed.  The constructor has
    no other check. *)
Definition construct_in_build (ndebug : bool) (members : OPLL)
  (audio_divider : Z) (is_vrc7 : bool) : option OPLL :=
  let o := set_audio_divider members audio_divider in
  if assert_passes ndebug (audio_divider <=? 4) then
    let patch_set := if is_vrc7 then vrc7_patch_set else opll_patch_set in
    let o := install_fixed_instruments patch_set o in
    let o := install_rhythm_patches o in
    Some (set_default_modulators o)
  else None.

(** [OPLL::OPLL] with assertions enabled ([NDEBUG] not defined). *)
Definition construct (members : OPLL) (audio_divider : Z) (is_vrc7 : bool)
  : option OPLL :=
  construct_in_build false members audio_divider is_vrc7.

End Chip.

(** *** A sample chip

    A channel model without state, empty patch sets, and a chip whose 38
    operators, 9 channels and 8 custom-instrument bytes are all zero. *)
Definition still_channel (c : unit) (value : Z) : unit := c.

Definition zero_chip : OPLL unit :=
  mkOPLL unit [] 0 0 false 0
    (repeat zero_operator 38)
    (repeat (mkChannel unit tt 0 (mkOperatorOverrides 0 false) 0) 9)
    (repeat (mkOperatorOverrides 0 false) 6)
    (repeat 0 8)
    1 0 0.

(** *** What [setup_fixed_instrument] makes of each operator

    The calls on the modulator, and the calls on the carrier, in the source's
    order. *)
Definition modulator_patch (data : list Z) (m : Operator) : Operator :=
  let m := set_am_vibrato_hold_sustain_ksr_multiple m (byte_at data 0) in
  let m := set_scaling_output m (byte_at data 2) in
  let m := set_waveform m (Z.land (Z.shiftr (byte_at data 3) 3) 1) in
  let m := set_attack_decay m (byte_at data 4) in
  set_sustain_release m (byte_at data 6).

Definition carrier_patch (data : list Z) (c : Operator) : Operator :=
  let c := set_am_vibrato_hold_sustain_ksr_multiple c (byte_at data 1) in
  let c := set_waveform c (Z.land (Z.shiftr (byte_at data 3) 4) 1) in
  let c := set_attack_decay c (byte_at data 5) in
  set_sustain_release c (byte_at data 7).

Section Registers.

Variable ChannelBase : Type.
Variable set_frequency_low : ChannelBase -> Z -> ChannelBase.
Variable set_9bit_frequency_octave_key_on : ChannelBase -> Z -> ChannelBase.

(** The array sizes of OPL2.hpp ([operators_[38]], [channels_[9]],
    [custom_instrument_[8]]), decoded operators, and every channel's
    [modulator] pointing at an even slot from 0 to 30, so that the carrier,
    [modulator + 1], is an operator of the array. *)
Record well_formed (o : OPLL ChannelBase) : Prop := {
  operators_length : length (operators_ ChannelBase o) = 38%nat;
  channels_length : length (channels_ ChannelBase o) = 9%nat;
  custom_length : length (custom_instrument_ ChannelBase o) = 8%nat;
  operators_decoded : Forall decoded (operators_ ChannelBase o);
  modulators_in_range :
    Forall (fun c => 0 <= modulator ChannelBase c <= 30
                     /\ modulator ChannelBase c mod 2 = 0)
      (channels_ ChannelBase o)
}.

(** The deferred writes of [data[0]] to [data[7]] to registers 0 to 7, in
    address order. *)
Definition program_custom (data : list Z) (o : OPLL ChannelBase)
  : OPLL ChannelBase :=
  fold_left
    (fun o a =>
       write_register_task ChannelBase set_frequency_low
         set_9bit_frequency_octave_key_on (Z.of_nat a) (byte_at data a) o)
    (seq 0 8) o.

(** A register write as the bus issues it: the register number to an even
    address, then the value to an odd one; and a sequence of them. *)
Definition write_pair (register value : Z) (o : OPLL ChannelBase)
  : OPLL ChannelBase :=
  write ChannelBase 1 value (write ChannelBase 0 register o).

Definition issue (pairs : list (Z * Z)) (o : OPLL ChannelBase)
  : OPLL ChannelBase :=
  fold_left (fun o rv => write_pair (fst rv) (snd rv) o) pairs o.

End Registers.

End OPLL.

(** ** OPL2.cpp: [OPLL::get_samples] *)
Module OPLLOutput.

(** [int16_t(x)] of an [int]. *)
Definition int16 (z : Z) : Z := (z + 2 ^ 15) mod 2 ^ 16 - 2 ^ 15.

Section Output.

(** What [update_all_chanels] works on besides [output_levels_]: the
    channels, operators, oscillator and mode registers. *)
Variable Voices : Type.

(** [OPLL::update_all_chanels]: it calls the channel and oscillator functions
    of Channel.hpp, reads the voices and fills [output_levels_]; it touches
    neither [audio_divider_] nor [audio_offset_]. *)
Variable update_all_chanels : Voices * list Z -> Voices * list Z.

Record Output : Type := mkOutput {
  voices : Voices;
  output_levels_ : list Z;
  audio_divider_ : Z;
  audio_offset_ : Z
}.

(** [72 / audio_divider_] and [4 / audio_divider_]: [int] division truncates
    towards zero. *)
Definition update_period (o : Output) : Z := Z.quot 72 (audio_divider_ o).

Definition channel_output_period (o : Output) : Z :=
  Z.quot 4 (audio_divider_ o).

(** The index of [output_levels_] a sample is read from. *)
Definition output_slot (o : Output) : Z :=
  Z.quot (audio_offset_ o) (channel_output_period o).

(** [if(!audio_offset_) update_all_chanels();] *)
Definition refresh (o : Output) : Output :=
  if audio_offset_ o =? 0 then
    let r := update_all_chanels (voices o, output_levels_ o) in
    mkOutput (fst r) (snd r) (audio_divider_ o) (audio_offset_ o)
  else o.

(** One turn of the [while(number_of_samples--)] loop: the sample written to
    [*target], and the state after it. *)
Definition get_sample (o : Output) : Z * Output :=
  let o := refresh o in
  let sample := int16 (Operator.table (output_levels_ o) (output_slot o)) in
  (sample,
   mkOutput (voices o) (output_levels_ o) (audio_divider_ o)
     (Z.rem (Int32.add (audio_offset_ o) 1) (update_period o))).

Fixpoint get_samples (number_of_samples : nat) (o : Output)
  : list Z * Output :=
  match number_of_samples with
  | O => ([], o)
  | S n =>
      let r := get_sample o in
      let rest := get_samples n (snd r) in
      (fst r :: fst rest, snd rest)
  end.

(** The dividers that split the 72-clock update period and the 4-clock
    channel period evenly. *)
Definition even_divider (o : Output) : Prop :=
  audio_divider_ o = 1 \/ audio_divider_ o = 2 \/ audio_divider_ o = 4.

(** [audio_offset_] is a position inside the update period. *)
Definition in_period (o : Output) : Prop :=
  0 <= audio_offset_ o < update_period o.

End Output.

End OPLLOutput.

(** ** OPL2.cpp: the OPL2 front end *)
Module OPL2.

Import Operator.

(** [operator_by_address] *)
Definition operator_by_address : list Z :=
  [ 0; 1; 2; 3; 4; 5; -1; -1;
    6; 7; 8; 9; 10; 11; -1; -1;
    12; 13; 14; 15; 16; 17; -1; -1;
    -1; -1; -1; -1; -1; -1; -1; -1 ].

Section Chip.

(** [Yamaha::OPL::Channel] of Channel.hpp and the three decoders the OPL2
    register file calls. *)
Variable Channel : Type.
Variable set_frequency_low : Channel -> Z -> Channel.
Variable set_10bit_frequency_octave_key_on : Channel -> Z -> Channel.
Variable set_feedback_mode : Channel -> Z -> Channel.

(** An enqueued closure of [write_register]: it captures [address] and
    [value]. *)
Record Task : Type := mkTask { task_address : Z; task_value : Z }.

Record OPL2 : Type := mkOPL2 {
  task_queue_ : list Task;
  depth_rhythm_control_ : Z;
  csm_keyboard_split_ : Z;
  waveform_enable_ : bool;
  selected_register_ : Z;
  operators_ : list Operator;
  channels_ : list Channel;
  timers_ : list Z;
  timer_control_ : Z
}.

Definition set_task_queue (o : OPL2) (q : list Task) : OPL2 :=
  mkOPL2 q (depth_rhythm_control_ o) (csm_keyboard_split_ o)
    (waveform_enable_ o) (selected_register_ o) (operators_ o) (channels_ o)
    (timers_ o) (timer_control_ o).

Definition set_depth_rhythm_control (o : OPL2) (v : Z) : OPL2 :=
  mkOPL2 (task_queue_ o) v (csm_keyboard_split_ o)
    (waveform_enable_ o) (selected_register_ o) (operators_ o) (channels_ o)
    (timers_ o) (timer_control_ o).

Definition set_csm_keyboard_split (o : OPL2) (v : Z) : OPL2 :=
  mkOPL2 (task_queue_ o) (depth_rhythm_control_ o) v
    (waveform_enable_ o) (selected_register_ o) (operators_ o) (channels_ o)
    (timers_ o) (timer_control_ o).

Definition set_waveform_enable (o : OPL2) (b : bool) : OPL2 :=
  mkOPL2 (task_queue_ o) (depth_rhythm_control_ o) (csm_keyboard_split_ o)
    b (selected_register_ o) (operators_ o) (channels_ o)
    (timers_ o) (timer_control_ o).

Definition set_selected_register (o : OPL2) (v : Z) : OPL2 :=
  mkOPL2 (task_queue_ o) (depth_rhythm_control_ o) (csm_keyboard_split_ o)
    (waveform_enable_ o) v (operators_ o) (channels_ o)
    (timers_ o) (timer_control_ o).

Definition set_operators (o : OPL2) (ops : list Operator) : OPL2 :=
  mkOPL2 (task_queue_ o) (depth_rhythm_control_ o) (csm_keyboard_split_ o)
    (waveform_enable_ o) (selected_register_ o) ops (channels_ o)
    (timers_ o) (timer_control_ o).

Definition set_channels (o : OPL2) (cs : list Channel) : OPL2 :=
  mkOPL2 (task_queue_ o) (depth_rhythm_control_ o) (csm_keyboard_split_ o)
    (waveform_enable_ o) (selected_register_ o) (operators_ o) cs
    (timers_ o) (timer_control_ o).

Definition set_timers (o : OPL2) (t : list Z) : OPL2 :=
  mkOPL2 (task_queue_ o) (depth_rhythm_control_ o) (csm_keyboard_split_ o)
    (waveform_enable_ o) (selected_register_ o) (operators_ o) (channels_ o)
    t (timer_control_ o).

Definition set_timer_control (o : OPL2) (v : Z) : OPL2 :=
  mkOPL2 (task_queue_ o) (depth_rhythm_control_ o) (csm_keyboard_split_ o)
    (waveform_enable_ o) (selected_register_ o) (operators_ o) (channels_ o)
    (timers_ o) v.

(** [operators_[index].f(value)] and [channels_[index].f(value)] *)
Definition on_operator (i : Z) (f : Operator -> Operator) (o : OPL2) : OPL2 :=
  set_operators o (alter f (Z.to_nat i) (operators_ o)).

Definition on_channel (i : Z) (f : Channel -> Channel) (o : OPL2) : OPL2 :=
  set_channels o (alter f (Z.to_nat i) (channels_ o)).

(** "Modal modifications": the first [switch(address)] of the closure. *)
Definition modal (address value : Z) (o : OPL2) : OPL2 :=
  match address with
  | 0x01 => set_waveform_enable o (flag value 0x20)
  | 0x08 => set_csm_keyboard_split o value
  | 0xbd => set_depth_rhythm_control o value
  | _ => o
  end.

(** "Channel modifications": the end of the closure. *)
Definition channel_modifications (address value : Z) (o : OPL2) : OPL2 :=
  let index := Z.land address 0xf in
  if 8 <? index then o
  else
    match Z.land address 0xf0 with
    | 0xa0 => on_channel index (fun c => set_frequency_low c value) o
    | 0xb0 =>
        on_channel index (fun c => set_10bit_frequency_octave_key_on c value) o
    | 0xc0 => on_channel index (fun c => set_feedback_mode c value) o
    | _ => o
    end.

(** The body of the closure [OPL2::write_register] enqueues.  Within the
    "operator modifications", [if(index == -1) return;] leaves the closure. *)
Definition write_register_task (address value : Z) (o : OPL2) : OPL2 :=
  let o := modal address value o in
  if ((0x20 <=? address) && (address <? 0xa0)) || (0xe0 <=? address) then
    let index := table operator_by_address (Z.land address 0x1f) in
    if index =? -1 then o
    else
      let o :=
        match Z.land address 0xe0 with
        | 0x20 =>
            on_operator index
              (fun p => set_am_vibrato_hold_sustain_ksr_multiple p value) o
        | 0x40 => on_operator index (fun p => set_scaling_output p value) o
        | 0x60 => on_operator index (fun p => set_attack_decay p value) o
        | 0x80 => on_operator index (fun p => set_sustain_release p value) o
        | 0xe0 => on_operator index (fun p => set_waveform p value) o
        | _ => o
        end in
      channel_modifications address value o
  else channel_modifications address value o.

(** [OPL2::write_register]: the timer registers are written at once, every
    other write is enqueued. *)
Definition write_register (address value : Z) (o : OPL2) : OPL2 :=
  match address with
  | 0x02 => set_timers o (<[0%nat := value]> (timers_ o))
  | 0x03 => set_timers o (<[1%nat := value]> (timers_ o))
  | 0x04 => set_timer_control o value
  | _ => set_task_queue o (task_queue_ o ++ [mkTask address value])
  end.

(** [OPLBase<Child>::write] *)
Definition write (address value : Z) (o : OPL2) : OPL2 :=
  if negb (Z.land address 1 =? 0)
  then write_register (selected_register_ o) value o
  else set_selected_register o value.

End Chip.

(** *** A sample chip: 18 zero operators, 9 channels without state, and both
    timers at 0. *)
Definition quiet_channel (c : unit) (value : Z) : unit := c.

Definition quiet_chip : OPL2 unit :=
  mkOPL2 unit [] 0 0 false 0 (repeat zero_operator 18) (repeat tt 9) [0; 0] 0.

End OPL2.

(** * Properties *)

(** ** Facts on 32-bit arithmetic and bit masks *)
Module Int32Facts.

Import Int32.

Lemma wrap_in_range z : in_range (wrap z).
Proof.
  unfold in_range, wrap, min_int, max_int.
  pose proof (Z.mod_pos_bound (z + 2 ^ 31) (2 ^ 32) ltac:(lia)). lia.
Qed.

Lemma wrap_small z : in_range z -> wrap z = z.
Proof.
  unfold in_range, wrap, min_int, max_int. intros Hz.
  rewrite Z.mod_small; lia.
Qed.

Lemma wrap_eqm z : (wrap z) mod 2 ^ 32 = z mod 2 ^ 32.
Proof.
  unfold wrap.
  replace ((z + 2 ^ 31) mod 2 ^ 32 - 2 ^ 31)
    with ((z + 2 ^ 31) mod 2 ^ 32 + (- 2 ^ 31)) by lia.
  rewrite Zplus_mod_idemp_l. f_equal. lia.
Qed.

Lemma wrap_congr a b : a mod 2 ^ 32 = b mod 2 ^ 32 -> wrap a = wrap b.
Proof.
  intros H. unfold wrap.
  rewrite <- (Zplus_mod_idemp_l a), <- (Zplus_mod_idemp_l b), H. reflexivity.
Qed.

Lemma wrap_mul_l a b : wrap (wrap a * b) = wrap (a * b).
Proof.
  apply wrap_congr.
  rewrite <- Zmult_mod_idemp_l, wrap_eqm, Zmult_mod_idemp_l. reflexivity.
Qed.

Lemma wrap_mul_r a b : wrap (a * wrap b) = wrap (a * b).
Proof. rewrite (Z.mul_comm a), wrap_mul_l. f_equal. lia. Qed.

Lemma wrap_add_l a b : wrap (wrap a + b) = wrap (a + b).
Proof.
  apply wrap_congr.
  rewrite <- Zplus_mod_idemp_l, wrap_eqm, Zplus_mod_idemp_l. reflexivity.
Qed.

Lemma wrap_add_r a b : wrap (a + wrap b) = wrap (a + b).
Proof.
  apply wrap_congr.
  rewrite <- Zplus_mod_idemp_r, wrap_eqm, Zplus_mod_idemp_r. reflexivity.
Qed.

(** A property checked on every value below [n] holds below [n]. *)
Lemma forall_below (P : Z -> bool) (n : nat) :
  forallb P (map Z.of_nat (seq 0 n)) = true ->
  forall x, 0 <= x < Z.of_nat n -> P x = true.
Proof.
  intros Hall x Hx.
  rewrite forallb_forall in Hall. apply Hall.
  apply in_map_iff. exists (Z.to_nat x). split; [lia|].
  apply in_seq. lia.
Qed.

(** A mask below 256 only sees the low byte. *)
Lemma land_low_byte v m : Z.land 255 m = m -> Z.land v m = Z.land (v mod 256) m.
Proof.
  intros Hm. rewrite <- Hm at 1.
  rewrite Z.land_assoc. change 255 with (Z.ones 8).
  rewrite Z.land_ones by lia. reflexivity.
Qed.

Lemma shiftr_2 a : Z.shiftr a 2 = a / 4.
Proof. rewrite Z.shiftr_div_pow2 by lia. reflexivity. Qed.

Lemma shiftr_3 a : Z.shiftr a 3 = a / 8.
Proof. rewrite Z.shiftr_div_pow2 by lia. reflexivity. Qed.

Lemma shl_defined undefined a n :
  0 <= n < 32 -> shl undefined a n = wrap (a * 2 ^ n).
Proof.
  intros Hn. unfold shl, shift_count_ok.
  destruct (0 <=? n) eqn:H0; destruct (n <? 32) eqn:H1; simpl; try reflexivity; lia.
Qed.

Lemma shl_small undefined a n :
  0 <= n < 32 -> in_range (a * 2 ^ n) -> shl undefined a n = a * 2 ^ n.
Proof. intros Hn Hr. rewrite shl_defined by assumption. apply wrap_small, Hr. Qed.

End Int32Facts.

(** ** The register decoders *)
Module DecoderFacts.

Import Int32 Int32Facts Operator.

Lemma ADSRPhase_eqb_spec a b : reflect (a = b) (ADSRPhase_eqb a b).
Proof. destruct a, b; simpl; constructor; congruence. Qed.

Lemma ADSRPhase_eqb_refl a : ADSRPhase_eqb a a = true.
Proof. destruct a; reflexivity. Qed.

(** The high nibble shifted right by two: a multiple of four up to 60. *)
Lemma high_nibble_rate v :
  let r := Z.shiftr (Z.land v 0xf0) 2 in 0 <= r <= 60 /\ r mod 4 = 0.
Proof.
  rewrite (land_low_byte v 0xf0) by reflexivity.
  pose proof (forall_below
    (fun x => let r := Z.shiftr (Z.land x 0xf0) 2 in
              (0 <=? r) && (r <=? 60) && (r mod 4 =? 0)) 256 eq_refl
    (v mod 256) (Z.mod_pos_bound v 256 eq_refl)) as H.
  simpl in H. cbv zeta.
  apply andb_prop in H as [H H2]. apply andb_prop in H as [H0 H1]. lia.
Qed.

(** The low nibble shifted left by two. *)
Lemma low_nibble_rate v :
  let r := Z.shiftl (Z.land v 0x0f) 2 in 0 <= r <= 60 /\ r mod 4 = 0.
Proof.
  cbv zeta. change 0x0f with (Z.ones 4).
  rewrite Z.land_ones, Z.shiftl_mul_pow2 by lia.
  pose proof (Z.mod_pos_bound v (2 ^ 4) eq_refl).
  change (2 ^ 2) with 4. change (2 ^ 4) with 16 in *.
  split; [lia|]. apply Z_mod_mult.
Qed.

Lemma high_nibble v : 0 <= Z.shiftr (Z.land v 0xf0) 4 <= 15.
Proof.
  rewrite Z.shiftr_land. change (Z.shiftr 0xf0 4) with (Z.ones 4).
  rewrite Z.land_ones by lia.
  pose proof (Z.mod_pos_bound (Z.shiftr v 4) (2 ^ 4) eq_refl).
  change (2 ^ 4) with 16 in *. lia.
Qed.

Lemma low_bits v n : 0 <= n -> 0 <= Z.land v (Z.ones n) <= Z.ones n.
Proof.
  intros Hn. rewrite Z.land_ones by lia. rewrite Z.ones_equiv.
  pose proof (Z.mod_pos_bound v (2 ^ n) ltac:(lia)). lia.
Qed.

Lemma set_attack_decay_decoded op v :
  decoded op -> decoded (set_attack_decay op v).
Proof.
  intros [? ? ? ? ? ?]. constructor; simpl; try assumption.
  - apply high_nibble_rate.
  - apply low_nibble_rate.
Qed.

Lemma set_sustain_release_decoded op v :
  decoded op -> decoded (set_sustain_release op v).
Proof.
  intros [? ? ? ? ? ?]. constructor; simpl; try assumption.
  - apply high_nibble.
  - apply low_nibble_rate.
Qed.

Lemma set_scaling_output_decoded op v :
  decoded op -> decoded (set_scaling_output op v).
Proof.
  intros [? ? ? ? ? ?]. constructor; simpl; try assumption.
  apply (low_bits v 6). lia.
Qed.

Lemma set_waveform_decoded op v : decoded op -> decoded (set_waveform op v).
Proof. intros [? ? ? ? ? ?]. constructor; simpl; assumption. Qed.

Lemma set_am_vibrato_hold_sustain_ksr_multiple_decoded op v :
  decoded op -> decoded (set_am_vibrato_hold_sustain_ksr_multiple op v).
Proof.
  intros [? ? ? ? ? ?]. constructor; simpl; try assumption.
  apply (low_bits v 4). lia.
Qed.

(** Every decodable rate is produced by some register byte. *)
Lemma release_rate_of_nibble op n :
  0 <= n <= 15 -> release_rate_ (set_sustain_release op n) = 4 * n.
Proof.
  intros Hn.
  pose proof (forall_below
    (fun x => Z.shiftl (Z.land x 0x0f) 2 =? 4 * x) 16 eq_refl n ltac:(lia)) as H.
  simpl in *. lia.
Qed.

Lemma decay_rate_of_nibble op n :
  0 <= n <= 15 -> decay_rate_ (set_attack_decay op n) = 4 * n.
Proof.
  intros Hn.
  pose proof (forall_below
    (fun x => Z.shiftl (Z.land x 0x0f) 2 =? 4 * x) 16 eq_refl n ltac:(lia)) as H.
  simpl in *. lia.
Qed.

End DecoderFacts.

(** ** The envelope generator *)
Module EnvelopeFacts.

Import Int32 Int32Facts Operator DecoderFacts.

Lemma sub_small a b : in_range (a - b) -> sub a b = a - b.
Proof. apply wrap_small. Qed.

Lemma add_small a b : in_range (a + b) -> add a b = a + b.
Proof. apply wrap_small. Qed.

Ltac range_solve :=
  unfold in_range, min_int, max_int in *; Z.div_mod_to_equations; lia.

(** Removes the wrap-around of the additions and subtractions whose result is
    seen to fit, innermost first. *)
Ltac int_simpl :=
  repeat match goal with
         | |- context [sub ?a ?b] => rewrite (sub_small a b) by range_solve
         | |- context [add ?a ?b] => rewrite (add_small a b) by range_solve
         end.

Section Envelope.

Variable negative_log_sin : Z -> LogSign.
Variable shl_undefined : Z -> Z -> Z.

Local Abbreviation update := (Operator.update negative_log_sin shl_undefined).
Local Abbreviation advance_phase :=
  (Operator.advance_phase negative_log_sin shl_undefined).
Local Abbreviation envelope := (Operator.envelope shl_undefined).
Local Abbreviation attack := (Operator.attack shl_undefined).
Local Abbreviation attack_attenuation :=
  (Operator.attack_attenuation shl_undefined).
Local Abbreviation decay_release := (Operator.decay_release shl_undefined).
Local Abbreviation decrease_attenuation :=
  (Operator.decrease_attenuation shl_undefined).
Local Abbreviation reachable :=
  (Operator.reachable negative_log_sin shl_undefined).

(** The state the envelope [switch] starts from. *)
Local Abbreviation at_switch op s key_on period octave offset :=
  (Operator.at_switch negative_log_sin shl_undefined op s
     (mkTick key_on period octave offset)).

(** *** What each stage of [update] leaves alone *)

Lemma at_switch_attenuation op s key_on period octave offset :
  adsr_attenuation_ (at_switch op s key_on period octave offset)
  = adsr_attenuation_ s.
Proof.
  unfold Operator.at_switch, key_on_logic.
  destruct key_on, (last_key_on_ _); reflexivity.
Qed.

Lemma at_switch_time op s key_on period octave offset :
  time_in_phase_ (at_switch op s key_on period octave offset)
  = if negb key_on || negb (last_key_on_ s) then 0 else time_in_phase_ s.
Proof.
  unfold Operator.at_switch, key_on_logic. simpl.
  destruct key_on, (last_key_on_ s); reflexivity.
Qed.

Lemma at_switch_phase op s key_on period octave offset :
  adsr_phase_ (at_switch op s key_on period octave offset)
  = if negb key_on then Release
    else if negb (last_key_on_ s) then Attack else adsr_phase_ s.
Proof.
  unfold Operator.at_switch, key_on_logic. simpl.
  destruct key_on, (last_key_on_ s); reflexivity.
Qed.

Lemma update_attenuation op s key_on period octave offset ov :
  adsr_attenuation_ (update op s key_on period octave offset ov)
  = adsr_attenuation_
      (envelope op ov (at_switch op s key_on period octave offset)).
Proof.
  unfold Operator.update, combine, count_time.
  destruct (ADSRPhase_eqb _ _); reflexivity.
Qed.

Lemma update_phase op s key_on period octave offset ov :
  adsr_phase_ (update op s key_on period octave offset ov)
  = adsr_phase_ (envelope op ov (at_switch op s key_on period octave offset)).
Proof.
  unfold Operator.update, combine, count_time.
  destruct (ADSRPhase_eqb _ _); reflexivity.
Qed.

Lemma update_time op s key_on period octave offset ov :
  let s3 := at_switch op s key_on period octave offset in
  time_in_phase_ (update op s key_on period octave offset ov)
  = if ADSRPhase_eqb (adsr_phase_ (envelope op ov s3)) (adsr_phase_ s3)
    then Int32.add (time_in_phase_ (envelope op ov s3)) 1
    else 0.
Proof.
  cbv zeta. unfold Operator.update, combine, count_time.
  destruct (ADSRPhase_eqb _ _); reflexivity.
Qed.

Lemma update_last_key_on op s key_on period octave offset ov :
  last_key_on_ (update op s key_on period octave offset ov) = key_on.
Proof.
  unfold Operator.update, combine, count_time.
  destruct (ADSRPhase_eqb _ _); simpl.
  all: unfold Operator.envelope, Operator.attack, Operator.decay_release.
  all: repeat match goal with
              | |- context [match ?x with _ => _ end] => destruct x; simpl
              end; reflexivity.
Qed.

(** *** The Attack case *)

(** The Attack step leaves the attenuation, or takes a quarter or an eighth
    of it plus one away. *)
Lemma attack_attenuation_cases op s :
  envelope_in_range s ->
  let a := adsr_attenuation_ s in
  attack_attenuation op s = a - a / 4 - 1 \/
  attack_attenuation op s = a - a / 8 - 1 \/
  attack_attenuation op s = a.
Proof.
  unfold envelope_in_range, Operator.attack_attenuation. intros Ha. cbv zeta.
  rewrite shiftr_2, shiftr_3.
  destruct (56 <=? attack_rate_ op).
  - left. int_simpl. reflexivity.
  - destruct (_ =? 0); [right; left | right; right; reflexivity].
    int_simpl. reflexivity.
Qed.

Lemma attack_attenuation_range op s :
  envelope_in_range s ->
  -1 <= attack_attenuation op s <= adsr_attenuation_ s.
Proof.
  intros Ha. pose proof (attack_attenuation_cases op s Ha) as H. cbv zeta in H.
  unfold envelope_in_range in Ha. range_solve.
Qed.

Lemma attack_in_range op s :
  envelope_in_range s -> envelope_in_range (attack op s).
Proof.
  intros Ha. pose proof (attack_attenuation_range op s Ha) as H.
  unfold envelope_in_range in *. unfold Operator.attack.
  destruct (60 <? attack_rate_ op); simpl; [lia|].
  destruct (attack_attenuation op s <=? 0) eqn:E; simpl; lia.
Qed.

(** *** The Decay and Release case *)

Lemma decrease_attenuation_range op s :
  envelope_in_range s ->
  adsr_attenuation_ s <= decrease_attenuation op s <= adsr_attenuation_ s + 4.
Proof.
  unfold envelope_in_range, Operator.decrease_attenuation. intros Ha. cbv zeta.
  destruct (_ =? 0); [lia|].
  destruct (Z.shiftr _ 2) as [|[p|p|]|]; try destruct p;
    try destruct (_ =? 0); int_simpl; lia.
Qed.

Lemma sustain_target op :
  decoded op ->
  Int32.shl shl_undefined (sustain_level_ op) 5 = sustain_level_ op * 32.
Proof.
  intros Hd. destruct Hd as [_ _ _ _ Hs _].
  rewrite shl_small; [reflexivity | lia | range_solve].
Qed.

Lemma decay_release_in_range op ov s :
  decoded op -> envelope_in_range s -> envelope_in_range (decay_release op ov s).
Proof.
  intros Hd Ha. pose proof (decrease_attenuation_range op s Ha) as H.
  pose proof (decoded_sustain op Hd) as Hs.
  unfold envelope_in_range in *. unfold Operator.decay_release. cbv zeta.
  rewrite sustain_target by assumption.
  destruct (_ && _); simpl; lia.
Qed.

Lemma envelope_preserves_range op ov s :
  decoded op -> envelope_in_range s -> envelope_in_range (envelope op ov s).
Proof.
  intros Hd Ha. unfold Operator.envelope.
  destruct (adsr_phase_ s);
    auto using attack_in_range, decay_release_in_range.
Qed.

(** One tick keeps the attenuation on its scale. *)
Lemma update_preserves_range op s key_on period octave offset ov :
  decoded op -> envelope_in_range s ->
  envelope_in_range (update op s key_on period octave offset ov).
Proof.
  intros Hd Ha. unfold envelope_in_range. rewrite update_attenuation.
  apply envelope_preserves_range; [assumption|].
  unfold envelope_in_range. rewrite at_switch_attenuation. exact Ha.
Qed.

Lemma reachable_in_range init s :
  envelope_in_range init -> reachable init s -> envelope_in_range s.
Proof.
  intros Hi Hr. induction Hr as [|s op k p o off ov Hr IH Hd].
  - exact Hi.
  - apply update_preserves_range; assumption.
Qed.

(** *** Attack, tick by tick *)

Lemma attack_attenuation_steps op s :
  envelope_in_range s ->
  let a := adsr_attenuation_ s in
  if attack_steps shl_undefined op s
  then attack_attenuation op s = a - a / 4 - 1
       \/ attack_attenuation op s = a - a / 8 - 1
  else attack_attenuation op s = a.
Proof.
  unfold envelope_in_range, Operator.attack_steps, Operator.attack_attenuation.
  intros Ha. cbv zeta. rewrite shiftr_2, shiftr_3.
  destruct (56 <=? attack_rate_ op); simpl.
  - left. int_simpl. reflexivity.
  - destruct (_ =? 0); [right|reflexivity]. int_simpl. reflexivity.
Qed.

Lemma attack_phase op s :
  adsr_phase_ s = Attack ->
  adsr_phase_ (attack op s)
  = if (60 <? attack_rate_ op) || (attack_attenuation op s <=? 0)
    then Decay else Attack.
Proof.
  intros Hp. unfold Operator.attack.
  destruct (_ || _); simpl; [reflexivity | exact Hp].
Qed.

Lemma attack_result op s :
  adsr_attenuation_ (attack op s)
  = if (60 <? attack_rate_ op) || (attack_attenuation op s <=? 0)
    then 0 else attack_attenuation op s.
Proof. unfold Operator.attack. destruct (_ || _); reflexivity. Qed.

(** *** Decay and Release, tick by tick *)

Local Abbreviation below_sustain := (Operator.below_sustain shl_undefined).
Local Abbreviation coasting :=
  (Operator.coasting negative_log_sin shl_undefined).
Local Abbreviation run := (Operator.run negative_log_sin shl_undefined).
Local Abbreviation step := (Operator.step negative_log_sin shl_undefined).

Lemma at_switch_decay op s key_on period octave offset :
  adsr_phase_ (at_switch op s key_on period octave offset) = Decay ->
  adsr_phase_ s = Decay.
Proof.
  rewrite at_switch_phase.
  destruct key_on, (last_key_on_ s); simpl; congruence.
Qed.

Lemma decay_release_result op ov s :
  decoded op ->
  adsr_attenuation_ (decay_release op ov s)
  = let a := Z.min (decrease_attenuation op s) 511 in
    if ADSRPhase_eqb (adsr_phase_ s) Decay && (sustain_level_ op * 32 <=? a)
    then sustain_level_ op * 32 else a.
Proof.
  intros Hd. unfold Operator.decay_release. cbv zeta.
  rewrite sustain_target by assumption. simpl.
  destruct (_ && _); reflexivity.
Qed.

Lemma decay_release_phase op ov s :
  decoded op ->
  adsr_phase_ (decay_release op ov s)
  = let a := Z.min (decrease_attenuation op s) 511 in
    if ADSRPhase_eqb (adsr_phase_ s) Decay && (sustain_level_ op * 32 <=? a)
    then (if holds_sustain op ov then Sustain else Release)
    else adsr_phase_ s.
Proof.
  intros Hd. unfold Operator.decay_release. cbv zeta.
  rewrite sustain_target by assumption. simpl.
  destruct (_ && _); reflexivity.
Qed.

(** Decay and Release never lower an attenuation that has not passed the
    sustain level. *)
Lemma decay_release_monotone op ov s :
  decoded op -> envelope_in_range s -> below_sustain op s ->
  adsr_attenuation_ s <= adsr_attenuation_ (decay_release op ov s).
Proof.
  intros Hd Ha Hb. rewrite decay_release_result by assumption. cbv zeta.
  pose proof (decrease_attenuation_range op s Ha) as Hr.
  unfold Operator.below_sustain in Hb. rewrite sustain_target in Hb by assumption.
  unfold envelope_in_range in Ha.
  destruct (ADSRPhase_eqb_spec (adsr_phase_ s) Decay) as [Hp|Hp]; simpl.
  - specialize (Hb Hp). destruct (_ <=? _); lia.
  - lia.
Qed.

Lemma decay_release_rate_zero op ov s :
  decoded op -> envelope_in_range s -> below_sustain op s ->
  decrease_rate op s = 0 ->
  adsr_attenuation_ (decay_release op ov s) = adsr_attenuation_ s.
Proof.
  intros Hd Ha Hb H0. rewrite decay_release_result by assumption. cbv zeta.
  unfold Operator.decrease_attenuation. rewrite H0. simpl.
  unfold Operator.below_sustain in Hb. rewrite sustain_target in Hb by assumption.
  unfold envelope_in_range in Ha.
  destruct (ADSRPhase_eqb_spec (adsr_phase_ s) Decay) as [Hp|Hp]; simpl.
  - specialize (Hb Hp). destruct (_ <=? _) eqn:E; lia.
  - lia.
Qed.

(** Whatever the state before, a tick that ends in Decay ends below the
    sustain level of the configuration it ran with. *)
Lemma update_below_sustain op s key_on period octave offset ov :
  decoded op -> envelope_in_range s ->
  below_sustain op (update op s key_on period octave offset ov).
Proof.
  intros Hd Ha. unfold Operator.below_sustain.
  rewrite sustain_target by assumption.
  rewrite update_phase, update_attenuation.
  pose proof (decoded_sustain op Hd) as Hs.
  unfold Operator.envelope.
  destruct (adsr_phase_ (at_switch op s key_on period octave offset)) eqn:Hp.
  - rewrite attack_phase by exact Hp. rewrite attack_result.
    destruct (_ || _); [lia | discriminate].
  - rewrite decay_release_phase, decay_release_result by assumption.
    cbv zeta. rewrite Hp. simpl.
    destruct (_ <=? _) eqn:E; [destruct (holds_sustain _ _); discriminate | lia].
  - rewrite Hp. discriminate.
  - rewrite decay_release_phase by assumption. cbv zeta. rewrite Hp. simpl.
    discriminate.
Qed.

Lemma at_switch_below_sustain op s key_on period octave offset :
  below_sustain op s ->
  below_sustain op (at_switch op s key_on period octave offset).
Proof.
  unfold Operator.below_sustain. intros Hb Hp.
  rewrite at_switch_attenuation. apply Hb.
  eapply at_switch_decay; eassumption.
Qed.

Lemma at_switch_in_range op s key_on period octave offset :
  envelope_in_range s ->
  envelope_in_range (at_switch op s key_on period octave offset).
Proof. unfold envelope_in_range. rewrite at_switch_attenuation. tauto. Qed.

Lemma update_in_decay_release op s key_on period octave offset ov :
  let s3 := at_switch op s key_on period octave offset in
  adsr_phase_ s3 = Decay \/ adsr_phase_ s3 = Release ->
  adsr_attenuation_ (update op s key_on period octave offset ov)
  = adsr_attenuation_ (decay_release op ov s3).
Proof.
  cbv zeta. intros Hp. rewrite update_attenuation. unfold Operator.envelope.
  destruct Hp as [Hp|Hp]; rewrite Hp; reflexivity.
Qed.

Lemma run_cons op ov s t rest :
  run op ov s (t :: rest) = run op ov (step op ov s t) rest.
Proof. reflexivity. Qed.

Lemma coasting_unchanged op ov ticks :
  decoded op ->
  forall s, envelope_in_range s -> below_sustain op s ->
  coasting op ov s ticks ->
  adsr_attenuation_ (run op ov s ticks) = adsr_attenuation_ s.
Proof.
  intros Hd. induction ticks as [|[k p o off] rest IH]; intros s Ha Hb Hc.
  - reflexivity.
  - destruct Hc as (Hp & H0 & Hrest). rewrite run_cons.
    rewrite IH.
    + unfold Operator.step. cbn [tick_key_on tick_period tick_octave tick_phase_offset].
      rewrite update_in_decay_release by exact Hp.
      rewrite decay_release_rate_zero
        by auto using at_switch_in_range, at_switch_below_sustain.
      apply at_switch_attenuation.
    + apply update_preserves_range; assumption.
    + apply update_below_sustain; assumption.
    + exact Hrest.
Qed.

Lemma decay_release_in_release op ov s :
  adsr_phase_ s = Release ->
  adsr_phase_ (decay_release op ov s) = Release
  /\ time_in_phase_ (decay_release op ov s) = time_in_phase_ s.
Proof.
  intros Hp. unfold Operator.decay_release. cbv zeta. simpl.
  rewrite Hp. simpl. split; [exact Hp | reflexivity].
Qed.

(** *** The waveform output through the envelope stages *)

Local Abbreviation waveform_lookup :=
  (Operator.waveform_lookup negative_log_sin).
Local Abbreviation phase_increment :=
  (Operator.phase_increment shl_undefined).
Local Abbreviation combine := (Operator.combine shl_undefined).

Lemma envelope_frame op ov s :
  attenuation (envelope op ov s) = attenuation s
  /\ raw_phase_ (envelope op ov s) = raw_phase_ s.
Proof.
  unfold Operator.envelope, Operator.attack, Operator.decay_release.
  repeat match goal with
         | |- context [match ?x with _ => _ end] => destruct x; simpl
         end; split; reflexivity.
Qed.

Lemma update_raw_phase op s key_on period octave offset ov :
  raw_phase_ (update op s key_on period octave offset ov)
  = Int32.add (raw_phase_ s) (phase_increment op period octave).
Proof.
  unfold Operator.update, Operator.combine, count_time.
  destruct (ADSRPhase_eqb _ _); simpl;
    rewrite (proj2 (envelope_frame _ _ _));
    unfold Operator.at_switch, key_on_logic;
    destruct key_on, (last_key_on_ _); reflexivity.
Qed.

(** [update] is [combine] applied to a state that still holds this tick's
    waveform lookup. *)
Lemma update_combine op s key_on period octave offset ov :
  exists s5,
    update op s key_on period octave offset ov = combine op ov s5
    /\ attenuation s5 = waveform_lookup op (raw_phase_ s5) offset
    /\ adsr_attenuation_ s5
       = adsr_attenuation_ (update op s key_on period octave offset ov).
Proof.
  eexists. split; [reflexivity|]. split.
  - unfold count_time.
    destruct (ADSRPhase_eqb _ _); simpl;
      rewrite (proj1 (envelope_frame _ _ _)), (proj2 (envelope_frame _ _ _));
      unfold Operator.at_switch, key_on_logic;
      destruct key_on, (last_key_on_ _); reflexivity.
  - reflexivity.
Qed.

(** C1.  From an initial state whose envelope attenuation is on the 0..511
    scale, every state reached by ticks with decoded configurations, and the
    state after one more call of [update] with any decoded configuration, any
    phase, key-on level, channel inputs and overrides, has its envelope
    attenuation in [0, 511].  This holds whatever value an out-of-range shift
    yields. *)
Theorem update_attenuation_in_range init s op key_on period octave offset ov :
  envelope_in_range init ->
  reachable init s ->
  decoded op ->
  0 <= adsr_attenuation_ (update op s key_on period octave offset ov) <= 511.
Proof.
  intros Hi Hr Hd.
  apply update_preserves_range; [assumption|].
  eapply reachable_in_range; eassumption.
Qed.


(** C2, amended.  On a tick taken in the Attack phase the envelope
    attenuation never increases.  It strictly decreases on the ticks on which
    the Attack case steps (every tick from attack rate 56 on; below 56 only
    when the tick counter is a multiple of the sample length), provided it was
    above 0; on the other ticks the step leaves it as it was.  The phase after
    the call is Decay exactly when the stepped attenuation is at most 0 or the
    attack rate exceeds 60, and then the attenuation is exactly 0; otherwise
    the phase is still Attack and the attenuation is the stepped one. *)
Theorem attack_tick op s key_on period octave offset ov :
  envelope_in_range s ->
  adsr_phase_ (at_switch op s key_on period octave offset) = Attack ->
  let s3 := at_switch op s key_on period octave offset in
  let s' := update op s key_on period octave offset ov in
  adsr_attenuation_ s' <= adsr_attenuation_ s
  /\ (attack_steps shl_undefined op s3 = true -> 0 < adsr_attenuation_ s ->
      adsr_attenuation_ s' < adsr_attenuation_ s)
  /\ (attack_steps shl_undefined op s3 = false ->
      attack_attenuation op s3 = adsr_attenuation_ s)
  /\ (adsr_phase_ s' = Decay <->
      attack_attenuation op s3 <= 0 \/ 60 < attack_rate_ op)
  /\ (adsr_phase_ s' = Decay -> adsr_attenuation_ s' = 0)
  /\ (adsr_phase_ s' <> Decay ->
      adsr_phase_ s' = Attack
      /\ adsr_attenuation_ s' = attack_attenuation op s3).
Proof.
  intros Ha Hp. cbv zeta.
  rewrite update_attenuation, update_phase.
  unfold Operator.envelope. rewrite Hp.
  rewrite attack_phase by exact Hp. rewrite attack_result.
  assert (Ha3 : envelope_in_range (at_switch op s key_on period octave offset))
    by (unfold envelope_in_range; rewrite at_switch_attenuation; exact Ha).
  pose proof (attack_attenuation_steps op _ Ha3) as Hs.
  pose proof (attack_attenuation_range op _ Ha3) as Hr.
  cbv zeta in Hs. rewrite at_switch_attenuation in Hs, Hr.
  unfold envelope_in_range in Ha.
  destruct (60 <? attack_rate_ op) eqn:E60;
    destruct (attack_attenuation op _ <=? 0) eqn:E0; simpl;
    destruct (attack_steps _ _ _) eqn:Es;
    repeat split; intros; try discriminate; try congruence; try lia.
  all: try (exfalso; range_solve).
  all: try range_solve.
Qed.

(** C3, amended.  Let the configuration be decoded and the attenuation on
    its scale.  A tick taken in Release, or taken in Decay with an attenuation
    that does not exceed the level Decay ends at, [sustain_level_ << 5], never
    decreases the envelope attenuation.  If the voice satisfies that condition
    on Decay, the attenuation is unchanged across any run of ticks that are
    all taken in Decay or Release with a governing rate of 0.  The condition
    is kept by every tick: a state that leaves [update] in Decay is below the
    sustain level of the configuration the tick ran with. *)
Theorem decay_release_tick op ov s :
  decoded op ->
  envelope_in_range s ->
  (forall key_on period octave offset,
     let s3 := at_switch op s key_on period octave offset in
     adsr_phase_ s3 = Release
     \/ adsr_phase_ s3 = Decay
        /\ adsr_attenuation_ s <= Int32.shl shl_undefined (sustain_level_ op) 5 ->
     adsr_attenuation_ s
     <= adsr_attenuation_ (update op s key_on period octave offset ov))
  /\ (forall ticks,
        below_sustain op s ->
        coasting op ov s ticks ->
        adsr_attenuation_ (run op ov s ticks) = adsr_attenuation_ s)
  /\ (forall key_on period octave offset,
        below_sustain op (update op s key_on period octave offset ov)).
Proof.
  intros Hd Ha. repeat split.
  - intros k p o off. cbv zeta. intros Hp.
    rewrite update_in_decay_release by tauto.
    etransitivity;
      [| apply decay_release_monotone; auto using at_switch_in_range].
    + rewrite at_switch_attenuation. lia.
    + unfold Operator.below_sustain. rewrite at_switch_attenuation.
      intros Hdecay. destruct Hp as [Hp|[_ Hp]]; [congruence | exact Hp].
  - intros ticks Hb Hc. apply coasting_unchanged; assumption.
  - intros k p o off. apply update_below_sustain; assumption.
Qed.

(** C4, amended.  On a call with [key_on] true while the stored key-on level
    is false, the key-on logic sets the phase to Attack and the counter of
    ticks in phase to 0 whatever the phase was, and the same call then runs
    the Attack case: it returns in Attack with the counter at 1, or, if the
    attack completed on that tick, in Decay with the counter and the
    attenuation at 0.  On a call with [key_on] false the key-on logic sets the
    phase to Release and the counter to 0, and the call returns in Release with
    the counter at 1.  Every call stores [key_on] as the last key-on level. *)
Theorem key_on_tick op s period octave offset ov :
  (last_key_on_ s = false ->
   let s3 := at_switch op s true period octave offset in
   let s' := update op s true period octave offset ov in
   adsr_phase_ s3 = Attack /\ time_in_phase_ s3 = 0
   /\ (adsr_phase_ s' = Attack /\ time_in_phase_ s' = 1
       \/ adsr_phase_ s' = Decay /\ time_in_phase_ s' = 0
          /\ adsr_attenuation_ s' = 0))
  /\ (let s3 := at_switch op s false period octave offset in
      let s' := update op s false period octave offset ov in
      adsr_phase_ s3 = Release /\ time_in_phase_ s3 = 0
      /\ adsr_phase_ s' = Release /\ time_in_phase_ s' = 1)
  /\ (forall key_on,
        last_key_on_ (update op s key_on period octave offset ov) = key_on).
Proof.
  split; [|split].
  - intros Hl. cbv zeta.
    rewrite update_phase, update_time, update_attenuation. cbv zeta.
    rewrite at_switch_phase, at_switch_time, Hl. simpl.
    split; [reflexivity|]. split; [reflexivity|].
    assert (Hp : adsr_phase_ (at_switch op s true period octave offset) = Attack)
      by (rewrite at_switch_phase, Hl; reflexivity).
    assert (Ht : time_in_phase_ (at_switch op s true period octave offset) = 0)
      by (rewrite at_switch_time, Hl; reflexivity).
    unfold Operator.envelope. rewrite Hp.
    rewrite attack_phase by exact Hp. rewrite attack_result.
    unfold Operator.attack.
    destruct (_ || _); simpl.
    + right. repeat split; reflexivity.
    + left. rewrite Hl. split; reflexivity.
  - cbv zeta.
    assert (Hp : adsr_phase_ (at_switch op s false period octave offset) = Release)
      by (rewrite at_switch_phase; reflexivity).
    assert (Ht : time_in_phase_ (at_switch op s false period octave offset) = 0)
      by (rewrite at_switch_time; reflexivity).
    rewrite update_phase, update_time. cbv zeta.
    unfold Operator.envelope. rewrite Hp.
    destruct (decay_release_in_release op ov _ Hp) as [E1 E2].
    rewrite E1, E2, Ht. repeat split; reflexivity.
  - intros key_on. apply update_last_key_on.
Qed.

(** C5.  With a table whose magnitudes fit, a decoded configuration and the
    attenuation on its scale, [update] leaves in [state.attenuation] the sign
    of this tick's waveform lookup and, as magnitude: with overrides (whose
    attenuation is a nibble), waveform magnitude + envelope attenuation
    + override attenuation * 16; without overrides, waveform magnitude
    + envelope attenuation * 8 + static attenuation * 32.  The envelope
    attenuation is the one this tick has produced. *)
Theorem output_composition op s key_on period octave offset ov :
  table_fits negative_log_sin ->
  decoded op ->
  envelope_in_range s ->
  let s' := update op s key_on period octave offset ov in
  let wave := waveform_lookup op (raw_phase_ s') offset in
  sign (attenuation s') = sign wave
  /\ match ov with
     | Some o =>
         0 <= override_attenuation o <= 15 ->
         logsin (attenuation s')
         = logsin wave + adsr_attenuation_ s' + override_attenuation o * 16
     | None =>
         logsin (attenuation s')
         = logsin wave + adsr_attenuation_ s' * 8 + attenuation_ op * 32
     end.
Proof.
  intros Ht Hd Ha. cbv zeta.
  pose proof (update_preserves_range op s key_on period octave offset ov Hd Ha)
    as Hr.
  destruct (update_combine op s key_on period octave offset ov)
    as (s5 & Hu & Hw & Hatt).
  unfold envelope_in_range in Hr. rewrite <- Hatt in Hr. rewrite Hu.
  clear Hatt Hu.
  unfold Operator.combine. simpl. rewrite Hw.
  pose proof (Ht (masked_phase op (phase_of (raw_phase_ s5) offset))) as Hm.
  fold (waveform_lookup op (raw_phase_ s5) offset) in Hm.
  pose proof (decoded_attenuation op Hd) as Hs.
  split; [reflexivity|].
  destruct ov as [o|].
  - intros Ho.
    rewrite (shl_small _ (override_attenuation o) 4) by (try lia; range_solve).
    change (2 ^ 4) with 16. int_simpl. lia.
  - rewrite (shl_small _ (adsr_attenuation_ s5) 3) by (try lia; range_solve).
    rewrite (shl_small _ (attenuation_ op) 5) by (try lia; range_solve).
    change (2 ^ 3) with 8. change (2 ^ 5) with 32. int_simpl. lia.
Qed.

(** C7.  The raw phase accumulator advances by
    [multipliers[frequency_multiple_] * channel_period << channel_octave],
    computed on 32-bit integers, with the table 1, 2, 4, 6, 8, 10, 12, 14, 16,
    18, 20, 20, 24, 24, 30, 30.  For an octave that is a valid shift count the
    increment is the product with [2 ^ channel_octave] modulo wrap-around, so
    it is additive in [channel_period], and doubling [channel_period] doubles
    it, modulo wrap-around. *)
Theorem phase_increment_linear op s key_on period octave offset ov :
  0 <= octave < 32 ->
  multipliers = [1; 2; 4; 6; 8; 10; 12; 14; 16; 18; 20; 20; 24; 24; 30; 30]
  /\ raw_phase_ (update op s key_on period octave offset ov)
     = Int32.add (raw_phase_ s) (phase_increment op period octave)
  /\ phase_increment op period octave
     = Int32.wrap
         (table multipliers (frequency_multiple_ op) * period * 2 ^ octave)
  /\ phase_increment op (2 * period) octave
     = Int32.wrap (2 * phase_increment op period octave)
  /\ (forall p q,
        phase_increment op (p + q) octave
        = Int32.wrap (phase_increment op p octave + phase_increment op q octave)).
Proof.
  intros Ho.
  assert (Hinc : forall p,
             phase_increment op p octave
             = wrap (table multipliers (frequency_multiple_ op) * p * 2 ^ octave)).
  { intros p. unfold Operator.phase_increment, mul.
    rewrite shl_defined by exact Ho. apply wrap_mul_l. }
  split; [reflexivity|]. split; [apply update_raw_phase|].
  split; [apply Hinc|]. split.
  - rewrite !Hinc, wrap_mul_r. f_equal. ring.
  - intros p q. rewrite !Hinc, wrap_add_r, wrap_add_l. f_equal. ring.
Qed.

End Envelope.

(** *** The sample voice *)

Lemma zero_operator_decoded : decoded zero_operator.
Proof. constructor; simpl; try lia; (split; [lia | reflexivity]). Qed.

Lemma sustained_operator_decoded : decoded sustained_operator.
Proof.
  apply set_sustain_release_decoded, set_attack_decay_decoded,
    zero_operator_decoded.
Qed.

Lemma lowered_operator_decoded : decoded lowered_operator.
Proof.
  apply set_attack_decay_decoded, set_sustain_release_decoded,
    sustained_operator_decoded.
Qed.

Lemma idle_state_in_range : envelope_in_range idle_state.
Proof. unfold envelope_in_range. simpl. lia. Qed.

Lemma update_attenuation_in_range_witness :
  envelope_in_range idle_state
  /\ reachable silent_table zero_shift idle_state idle_state
  /\ decoded sustained_operator
  /\ 0 <= adsr_attenuation_
            (update silent_table zero_shift sustained_operator idle_state
               true 0 0 0 None) <= 511.
Proof.
  split; [exact idle_state_in_range|].
  split; [apply reachable_init|].
  split; [exact sustained_operator_decoded|].
  exact (update_attenuation_in_range silent_table zero_shift idle_state
           idle_state sustained_operator true 0 0 0 None
           idle_state_in_range (reachable_init _ _ _)
           sustained_operator_decoded).
Defined.

(** The claim of C2 fails on the second tick of a slow attack: the voice is
    keyed on from [idle_state] with attack rate 0, so the sample length is
    [1 << 14]; the first tick steps 511 down to 447 and counts one tick in
    phase; on the second tick the counter is 1, no step is taken and the
    attenuation stays 447. *)
Lemma attack_tick_not_strict :
  let s1 :=
    update silent_table zero_shift zero_operator idle_state true 0 0 0 None in
  let s2 := update silent_table zero_shift zero_operator s1 true 0 0 0 None in
  adsr_phase_ s1 = Attack
  /\ adsr_attenuation_ s1 = 447
  /\ adsr_phase_ (at_switch silent_table zero_shift zero_operator s1 key_held)
     = Attack
  /\ ~ adsr_attenuation_ s2 < adsr_attenuation_ s1.
Proof.
  vm_compute. repeat split. intros H. discriminate H.
Qed.

Lemma attack_tick_witness :
  let op := sustained_operator in
  let s := idle_state in
  let s3 := at_switch silent_table zero_shift op s key_held in
  let s' := update silent_table zero_shift op s true 0 0 0 None in
  envelope_in_range s
  /\ adsr_phase_ s3 = Attack
  /\ adsr_attenuation_ s' <= adsr_attenuation_ s
  /\ (attack_steps zero_shift op s3 = true -> 0 < adsr_attenuation_ s ->
      adsr_attenuation_ s' < adsr_attenuation_ s)
  /\ (attack_steps zero_shift op s3 = false ->
      attack_attenuation zero_shift op s3 = adsr_attenuation_ s)
  /\ (adsr_phase_ s' = Decay <->
      attack_attenuation zero_shift op s3 <= 0 \/ 60 < attack_rate_ op)
  /\ (adsr_phase_ s' = Decay -> adsr_attenuation_ s' = 0)
  /\ (adsr_phase_ s' <> Decay ->
      adsr_phase_ s' = Attack
      /\ adsr_attenuation_ s' = attack_attenuation zero_shift op s3).
Proof.
  cbv zeta.
  split; [exact idle_state_in_range|].
  split; [reflexivity|].
  exact (attack_tick silent_table zero_shift sustained_operator idle_state
           true 0 0 0 None idle_state_in_range eq_refl).
Defined.

(** The claim of C3 fails when the sustain level is lowered during Decay.  The
    voice is keyed on from [idle_state] with [sustained_operator]; after 30
    ticks it is in Decay at attenuation 44.  Two register writes then set the
    sustain level to 1 and the decay rate to 0 ([lowered_operator]); the next
    tick, taken in Decay with a governing rate of 0, ends Decay at
    [1 << 5 = 32]: the attenuation has decreased, and it has changed at rate
    0. *)
Lemma decay_tick_decreases :
  let s :=
    run silent_table zero_shift sustained_operator None idle_state
      (repeat key_held 30) in
  let s3 := at_switch silent_table zero_shift lowered_operator s key_held in
  let s' := update silent_table zero_shift lowered_operator s true 0 0 0 None in
  adsr_phase_ s = Decay
  /\ adsr_attenuation_ s = 44
  /\ adsr_phase_ s3 = Decay
  /\ decrease_rate lowered_operator s3 = 0
  /\ adsr_attenuation_ s' = 32
  /\ ~ adsr_attenuation_ s <= adsr_attenuation_ s'
  /\ adsr_attenuation_ s' <> adsr_attenuation_ s.
Proof.
  vm_compute. repeat split.
  - intros H. apply H. reflexivity.
  - intros H. discriminate H.
Qed.

Lemma decay_release_tick_witness :
  let op := sustained_operator in
  let s :=
    run silent_table zero_shift op None idle_state (repeat key_held 30) in
  decoded op
  /\ envelope_in_range s
  /\ (forall key_on period octave offset,
        let s3 :=
          at_switch silent_table zero_shift op s
            (mkTick key_on period octave offset) in
        adsr_phase_ s3 = Release
        \/ adsr_phase_ s3 = Decay
           /\ adsr_attenuation_ s <= Int32.shl zero_shift (sustain_level_ op) 5 ->
        adsr_attenuation_ s
        <= adsr_attenuation_
             (update silent_table zero_shift op s key_on period octave offset
                None))
  /\ (forall ticks,
        below_sustain zero_shift op s ->
        coasting silent_table zero_shift op None s ticks ->
        adsr_attenuation_ (run silent_table zero_shift op None s ticks)
        = adsr_attenuation_ s)
  /\ (forall key_on period octave offset,
        below_sustain zero_shift op
          (update silent_table zero_shift op s key_on period octave offset
             None)).
Proof.
  cbv zeta.
  assert (Ha : envelope_in_range
                 (run silent_table zero_shift sustained_operator None
                    idle_state (repeat key_held 30)))
    by (vm_compute; split; intros H; discriminate H).
  split; [exact sustained_operator_decoded|].
  split; [exact Ha|].
  exact (decay_release_tick silent_table zero_shift sustained_operator None _
           sustained_operator_decoded Ha).
Defined.

(** On the sample voice the run hypothesis is met: in Decay at 44, below the
    sustain level 480, with a decay rate rewritten to 0 the attenuation stays
    at 44 for three held ticks. *)
Lemma decay_rate_zero_holds :
  let op := set_attack_decay sustained_operator 0xf0 in
  let s :=
    run silent_table zero_shift sustained_operator None idle_state
      (repeat key_held 30) in
  below_sustain zero_shift op s
  /\ coasting silent_table zero_shift op None s (repeat key_held 3)
  /\ adsr_attenuation_
       (run silent_table zero_shift op None s (repeat key_held 3)) = 44.
Proof.
  cbv zeta. split; [intros _; vm_compute; intros H; discriminate H|].
  split; [|reflexivity].
  vm_compute. repeat split; left; reflexivity.
Qed.

(** The claim of C4 fails as a statement on the state [update] returns: keyed
    on from [idle_state] with attack rate 0, the call returns in Attack with
    the counter already at 1; with the fastest attack and an attenuation of 1
    it returns in Decay. *)
Lemma key_on_tick_counts :
  let s' :=
    update silent_table zero_shift zero_operator idle_state true 0 0 0 None in
  let quiet := set_adsr_attenuation idle_state 1 in
  let s'' :=
    update silent_table zero_shift sustained_operator quiet true 0 0 0 None in
  last_key_on_ idle_state = false
  /\ adsr_phase_ s' = Attack
  /\ time_in_phase_ s' = 1
  /\ ~ (adsr_phase_ s' = Attack /\ time_in_phase_ s' = 0)
  /\ last_key_on_ quiet = false
  /\ adsr_phase_ s'' = Decay
  /\ ~ (adsr_phase_ s'' = Attack /\ time_in_phase_ s'' = 0).
Proof.
  vm_compute. repeat split.
  - intros [_ H]. discriminate H.
  - intros [H _]. discriminate H.
Qed.

Lemma key_on_tick_witness :
  let s := idle_state in
  let op := zero_operator in
  last_key_on_ s = false
  /\ (let s3 := at_switch silent_table zero_shift op s key_held in
      let s' := update silent_table zero_shift op s true 0 0 0 None in
      adsr_phase_ s3 = Attack /\ time_in_phase_ s3 = 0
      /\ (adsr_phase_ s' = Attack /\ time_in_phase_ s' = 1
          \/ adsr_phase_ s' = Decay /\ time_in_phase_ s' = 0
             /\ adsr_attenuation_ s' = 0)).
Proof.
  cbv zeta. split; [reflexivity|].
  exact (proj1 (key_on_tick silent_table zero_shift zero_operator idle_state
                  0 0 0 None) eq_refl).
Defined.

Lemma silent_table_fits : table_fits silent_table.
Proof. intros p. simpl. lia. Qed.

Lemma output_composition_witness :
  let op := set_scaling_output sustained_operator 0x3f in
  let s := idle_state in
  let o := mkOperatorOverrides 15 false in
  let s' := update silent_table zero_shift op s true 0 0 0 (Some o) in
  let s'' := update silent_table zero_shift op s true 0 0 0 None in
  table_fits silent_table
  /\ decoded op
  /\ envelope_in_range s
  /\ 0 <= override_attenuation o <= 15
  /\ logsin (attenuation s')
     = logsin (waveform_lookup silent_table op (raw_phase_ s') 0)
       + adsr_attenuation_ s' + override_attenuation o * 16
  /\ logsin (attenuation s'')
     = logsin (waveform_lookup silent_table op (raw_phase_ s'') 0)
       + adsr_attenuation_ s'' * 8 + attenuation_ op * 32.
Proof.
  cbv zeta.
  assert (Hd : decoded (set_scaling_output sustained_operator 0x3f))
    by apply set_scaling_output_decoded, sustained_operator_decoded.
  assert (Ho : 0 <= override_attenuation (mkOperatorOverrides 15 false) <= 15)
    by (simpl; lia).
  split; [exact silent_table_fits|].
  split; [exact Hd|].
  split; [exact idle_state_in_range|].
  split; [exact Ho|].
  split.
  - exact (proj2 (output_composition silent_table zero_shift _ idle_state true
                    0 0 0 (Some (mkOperatorOverrides 15 false))
                    silent_table_fits Hd idle_state_in_range) Ho).
  - exact (proj2 (output_composition silent_table zero_shift _ idle_state true
                    0 0 0 None silent_table_fits Hd idle_state_in_range)).
Defined.

Lemma phase_increment_linear_witness :
  let op := set_am_vibrato_hold_sustain_ksr_multiple zero_operator 0x0f in
  0 <= 7 < 32
  /\ phase_increment zero_shift op 1023 7 = 30 * 1023 * 2 ^ 7
  /\ phase_increment zero_shift op (2 * 1023) 7
     = Int32.wrap (2 * phase_increment zero_shift op 1023 7).
Proof.
  cbv zeta. split; [lia|]. split; [reflexivity|].
  exact (proj1 (proj2 (proj2 (proj2
           (phase_increment_linear silent_table zero_shift _ idle_state true
              1023 7 0 None ltac:(lia)))))).
Defined.

(** *** Where the value of an out-of-range shift matters *)

Section Defined.

Variable negative_log_sin : Z -> LogSign.
Variables u1 u2 : Z -> Z -> Z.

Lemma shl_irrelevant a n :
  shift_count_ok n = true -> shl u1 a n = shl u2 a n.
Proof. unfold shl. intros ->. reflexivity. Qed.

Lemma attack_shift_ok rate :
  0 <= rate < 56 ->
  shift_count_ok (Int32.sub 14 (Z.shiftr rate 2)) = true.
Proof.
  intros Hr. rewrite shiftr_2. unfold shift_count_ok.
  assert (H : 0 <= rate / 4 <= 13) by range_solve.
  int_simpl. lia.
Qed.

(** From rate nibble 4 on, the shift count of the Decay/Release case is in
    range. *)
Lemma decrease_shift_ok rate :
  16 <= rate <= 60 -> shift_count_ok (decrease_shift rate) = true.
Proof.
  intros Hr. unfold decrease_shift, shift_count_ok. rewrite shiftr_2.
  assert (H : 4 <= rate / 4 <= 15) by range_solve.
  int_simpl. lia.
Qed.

Lemma decoded_rate_cases rate :
  0 <= rate <= 60 -> rate mod 4 = 0 ->
  rate = 0 \/ Z.shiftr rate 2 = 1 \/ Z.shiftr rate 2 = 2 \/ rate = 12
  \/ 16 <= rate <= 60.
Proof. intros Hr Hm. rewrite shiftr_2. range_solve. Qed.

Lemma attack_attenuation_defined op s :
  decoded op ->
  attack_attenuation u1 op s = attack_attenuation u2 op s.
Proof.
  intros Hd. destruct (decoded_attack op Hd) as [Hr _].
  unfold attack_attenuation, attack_sample_length.
  destruct (56 <=? attack_rate_ op) eqn:E; [reflexivity|].
  rewrite (shl_irrelevant 1) by (apply attack_shift_ok; lia). reflexivity.
Qed.

Lemma decrease_attenuation_defined op s :
  decoded op -> decrease_rate op s <> 12 ->
  decrease_attenuation u1 op s = decrease_attenuation u2 op s.
Proof.
  intros Hd H12.
  assert (Hr : 0 <= decrease_rate op s <= 60 /\ decrease_rate op s mod 4 = 0).
  { unfold decrease_rate. destruct (ADSRPhase_eqb _ _);
      [apply (decoded_decay op Hd) | apply (decoded_release op Hd)]. }
  unfold decrease_attenuation.
  destruct (decoded_rate_cases _ (proj1 Hr) (proj2 Hr))
    as [H|[H|[H|[H|H]]]]; try contradiction.
  - rewrite H. reflexivity.
  - rewrite H. reflexivity.
  - rewrite H. reflexivity.
  - rewrite (shl_irrelevant 1) by (apply decrease_shift_ok; exact H).
    reflexivity.
Qed.

(** X27.  With a decoded configuration and an octave that is a valid shift count,
    [update] does not depend on the value of out-of-range shifts, unless the
    tick is taken in Decay or Release with a governing rate of 12. *)
Lemma update_defined op s key_on period octave offset ov :
  decoded op ->
  0 <= octave < 32 ->
  (let s3 :=
     at_switch negative_log_sin u1 op s (mkTick key_on period octave offset) in
   (adsr_phase_ s3 = Decay \/ adsr_phase_ s3 = Release) ->
   decrease_rate op s3 <> 12) ->
  update negative_log_sin u1 op s key_on period octave offset ov
  = update negative_log_sin u2 op s key_on period octave offset ov.
Proof.
  intros Hd Ho. cbv zeta. intros H12.
  assert (Hinc : phase_increment u1 op period octave
                 = phase_increment u2 op period octave).
  { unfold phase_increment. apply shl_irrelevant. unfold shift_count_ok.
    lia. }
  assert (Hadv : advance_phase negative_log_sin u1 op s period octave offset
                 = advance_phase negative_log_sin u2 op s period octave offset).
  { unfold advance_phase. rewrite Hinc. reflexivity. }
  unfold update. rewrite <- Hadv.
  change (key_on_logic
            (advance_phase negative_log_sin u1 op s period octave offset)
            key_on)
    with (at_switch negative_log_sin u1 op s
            (mkTick key_on period octave offset)).
  set (s3 := at_switch negative_log_sin u1 op s _) in *.
  assert (Henv : envelope u1 op ov s3 = envelope u2 op ov s3).
  { unfold envelope.
    destruct (adsr_phase_ s3) eqn:Hp.
    - unfold attack. rewrite (attack_attenuation_defined op s3 Hd).
      reflexivity.
    - unfold decay_release.
      rewrite (decrease_attenuation_defined op s3 Hd) by auto.
      reflexivity.
    - reflexivity.
    - unfold decay_release.
      rewrite (decrease_attenuation_defined op s3 Hd) by auto.
      reflexivity. }
  rewrite Henv. reflexivity.
Qed.

End Defined.

(** *** [is_audible] and the rate-3 step *)

(** C6, amended.  [is_audible] returns false exactly when the phase is Release
    and the static attenuation (the override attenuation when overrides are
    supplied) is at its maximum, or the envelope attenuation is 511; in all
    other states it returns true. *)
Theorem is_audible_false_iff op s ov :
  is_audible op s ov = false
  <-> (adsr_phase_ s = Release /\ attenuation_at_maximum op ov)
      \/ adsr_attenuation_ s = 511.
Proof.
  unfold is_audible, attenuation_at_maximum. cbv zeta.
  destruct (ADSRPhase_eqb_spec (adsr_phase_ s) Release) as [Hp|Hp];
    destruct ov as [o|];
    repeat match goal with
           | |- context [?a =? ?b] => destruct (Z.eqb_spec a b)
           end; simpl; split; intros H; auto; try discriminate;
    destruct H as [[H1 H2]|H]; congruence.
Qed.

(** The claim of C6 fails in both directions.  A released voice at envelope
    attenuation 511 whose static attenuation is 0 is reported inaudible; so is
    a voice in Release whose static attenuation is 63, at envelope attenuation
    0. *)
Lemma is_audible_not_conjunction :
  let loud := set_scaling_output zero_operator 0x3f in
  let s := set_adsr_attenuation idle_state 0 in
  is_audible zero_operator idle_state None = false
  /\ ~ (adsr_phase_ idle_state = Release
        /\ attenuation_at_maximum zero_operator None
        /\ adsr_attenuation_ idle_state = 511)
  /\ is_audible loud s None = false
  /\ ~ (adsr_phase_ s = Release
        /\ attenuation_at_maximum loud None
        /\ adsr_attenuation_ s = 511).
Proof.
  vm_compute. repeat split.
  - intros (_ & H & _). discriminate H.
  - intros (_ & _ & H). discriminate H.
Qed.

(** C10: the code at the failing input.  A decay rate nibble of 3 decodes to
    rate 12, for which the shift count of the Decay/Release case is -1: not a
    valid shift count.  The attenuation [update] returns then depends on what
    the shift evaluates to: held in Decay at attenuation 100 with one tick in
    phase, the voice stays at 100 if the shift yields 0 and moves to 101 if it
    yields 1.  One nibble up, the count is 0 and the sample length 1. *)
Theorem decay_rate_three_shift :
  let op := set_sustain_release (set_attack_decay zero_operator 0x03) 0xf0 in
  let s := mkOperatorState (mkLogSign 0 1) 0 Decay 1 100 true in
  decay_rate_ op = 12
  /\ decrease_shift (decay_rate_ op) = -1
  /\ shift_count_ok (decrease_shift (decay_rate_ op)) = false
  /\ adsr_attenuation_
       (update silent_table (fun _ _ => 0) op s true 0 0 0 None) = 100
  /\ adsr_attenuation_
       (update silent_table (fun _ _ => 1) op s true 0 0 0 None) = 101
  /\ decrease_shift (decay_rate_ (set_attack_decay zero_operator 0x04)) = 0.
Proof. vm_compute. repeat split. Qed.

End EnvelopeFacts.

(** ** The OPLL register file and constructor *)
Module OPLLFacts.

Import Operator OPLL.

Section Chip.

Variable ChannelBase : Type.
Variable set_frequency_low : ChannelBase -> Z -> ChannelBase.
Variable set_9bit_frequency_octave_key_on : ChannelBase -> Z -> ChannelBase.
Variable opll_patch_set : list Z.
Variable vrc7_patch_set : list Z.
Variable percussion_patch_set : list Z.

Local Abbreviation OPLL := (OPLL.OPLL ChannelBase).
Local Abbreviation write_register_task :=
  (OPLL.write_register_task ChannelBase set_frequency_low
     set_9bit_frequency_octave_key_on).
Local Abbreviation construct :=
  (OPLL.construct ChannelBase opll_patch_set vrc7_patch_set
     percussion_patch_set).
Local Abbreviation construct_in_build :=
  (OPLL.construct_in_build ChannelBase opll_patch_set vrc7_patch_set
     percussion_patch_set).

(** [setup_fixed_instrument] touches [operators_] only, and there only the two
    slots of the instrument. *)
Lemma setup_fixed_instrument_frame number data (o : OPLL) :
  setup_fixed_instrument ChannelBase number data o
  = set_operators ChannelBase o
      (operators_ ChannelBase
         (setup_fixed_instrument ChannelBase number data o)).
Proof. reflexivity. Qed.

Lemma setup_fixed_instrument_length number data (o : OPLL) :
  length (operators_ ChannelBase
            (setup_fixed_instrument ChannelBase number data o))
  = length (operators_ ChannelBase o).
Proof.
  unfold setup_fixed_instrument, on_operator. simpl.
  rewrite !length_alter. reflexivity.
Qed.

Lemma setup_fixed_instrument_other number data (o : OPLL) (i : nat) :
  i <> Z.to_nat (number * 2) -> i <> Z.to_nat (number * 2 + 1) ->
  operators_ ChannelBase (setup_fixed_instrument ChannelBase number data o) !! i
  = operators_ ChannelBase o !! i.
Proof.
  intros Hm Hc. unfold setup_fixed_instrument, on_operator. simpl.
  rewrite !list_lookup_alter_ne by congruence. reflexivity.
Qed.

Lemma setup_fixed_instrument_divider number data (o : OPLL) :
  audio_divider_ ChannelBase (setup_fixed_instrument ChannelBase number data o)
  = audio_divider_ ChannelBase o.
Proof. reflexivity. Qed.

Lemma install_keeps_divider (number : nat -> Z) (data : nat -> list Z)
    (l : list nat) (o : OPLL) :
  audio_divider_ ChannelBase
    (fold_left
       (fun o c => setup_fixed_instrument ChannelBase (number c) (data c) o) l o)
  = audio_divider_ ChannelBase o.
Proof.
  revert o. induction l as [|c l IH]; intros o; simpl; [reflexivity|].
  rewrite IH. apply setup_fixed_instrument_divider.
Qed.

Lemma set_default_modulators_divider (o : OPLL) :
  audio_divider_ ChannelBase (set_default_modulators ChannelBase o)
  = audio_divider_ ChannelBase o.
Proof. reflexivity. Qed.

(** A write issued on an empty queue and then drained is the deferred body
    applied to the chip. *)
Lemma perform_write_register address value (o : OPLL) :
  task_queue_ ChannelBase o = [] ->
  perform ChannelBase set_frequency_low set_9bit_frequency_octave_key_on
    (write_register ChannelBase address value o)
  = write_register_task address value o.
Proof.
  intros Hq. unfold perform, write_register. simpl. rewrite Hq. simpl.
  f_equal. destruct o; simpl in *. subst. reflexivity.
Qed.

(** C8.  Applying the deferred write of a value to a register address 0 to 7
    changes two members of the chip only: in [custom_instrument_] the byte at
    that address becomes the value, and in [operators_] slots 0 and 1 may
    change.  The operator array keeps its length and its slots 2 to 37 (the
    fixed instruments and the rhythm patches); the channels, the rhythm
    overrides, the mode registers, the queue and the audio members are as they
    were. *)
Theorem custom_instrument_write address value (o : OPLL) :
  0 <= address < 8 ->
  let o' := write_register_task address value o in
  o' = set_operators ChannelBase
         (set_custom_instrument ChannelBase o
            (<[Z.to_nat address := value]> (custom_instrument_ ChannelBase o)))
         (operators_ ChannelBase o')
  /\ length (operators_ ChannelBase o') = length (operators_ ChannelBase o)
  /\ (forall i : nat,
        (2 <= i)%nat ->
        operators_ ChannelBase o' !! i = operators_ ChannelBase o !! i)
  /\ channels_ ChannelBase o' = channels_ ChannelBase o
  /\ rhythm_overrides_ ChannelBase o' = rhythm_overrides_ ChannelBase o
  /\ depth_rhythm_control_ ChannelBase o' = depth_rhythm_control_ ChannelBase o.
Proof.
  intros Ha. cbv zeta. unfold OPLL.write_register_task.
  assert (E : (address <? 8) = true) by lia. rewrite E.
  split; [reflexivity|]. split; [|split; [|repeat split]].
  - rewrite setup_fixed_instrument_length. reflexivity.
  - intros i Hi. rewrite setup_fixed_instrument_other; [reflexivity| |];
      simpl; lia.
Qed.

(** The constructor with assertions enabled, written out. *)
Lemma construct_unfold (members : OPLL) audio_divider is_vrc7 :
  construct members audio_divider is_vrc7
  = if audio_divider <=? 4 then
      Some (set_default_modulators ChannelBase
              (install_rhythm_patches ChannelBase percussion_patch_set
                 (install_fixed_instruments ChannelBase
                    (if is_vrc7 then vrc7_patch_set else opll_patch_set)
                    (set_audio_divider ChannelBase members audio_divider))))
    else None.
Proof. reflexivity. Qed.

(** C9.  Construction checks the divider first, in a build with assertions
    enabled: there, with an audio divider above 4 the assertion fails and no
    chip is constructed, before any instrument is installed.  In a build with
    [NDEBUG] the assertion is compiled out and nothing else checks the
    divider: construction returns a chip for every divider.  In both builds
    every divider up to 4 gives a chip, a chip that is returned stores the
    divider it was given, and it is the chip the [NDEBUG] build returns. *)
Theorem construct_checks_divider (ndebug : bool) (members : OPLL)
  audio_divider is_vrc7 :
  (construct_in_build ndebug members audio_divider is_vrc7 = None
   <-> ndebug = false /\ 4 < audio_divider)
  /\ (ndebug = true \/ audio_divider <= 4
      <-> exists o,
            construct_in_build ndebug members audio_divider is_vrc7 = Some o)
  /\ (forall o,
        construct_in_build ndebug members audio_divider is_vrc7 = Some o ->
        audio_divider_ ChannelBase o = audio_divider
        /\ construct_in_build true members audio_divider is_vrc7 = Some o)
  /\ (construct members audio_divider is_vrc7 = None <-> 4 < audio_divider)
  /\ (audio_divider <= 4 <->
      exists o, construct members audio_divider is_vrc7 = Some o
                /\ audio_divider_ ChannelBase o = audio_divider).
Proof.
  assert (Hdiv : forall b o,
             construct_in_build b members audio_divider is_vrc7 = Some o ->
             audio_divider_ ChannelBase o = audio_divider
             /\ construct_in_build true members audio_divider is_vrc7
                = Some o).
  { intros b o. unfold OPLL.construct_in_build, assert_passes.
    destruct (b || (audio_divider <=? 4)); [|discriminate].
    cbn [orb]. intros H. injection H as <-. split; [|reflexivity].
    rewrite set_default_modulators_divider.
    unfold install_rhythm_patches, install_fixed_instruments.
    rewrite !install_keeps_divider. reflexivity. }
  assert (Hnone : forall b,
             construct_in_build b members audio_divider is_vrc7 = None
             <-> b = false /\ 4 < audio_divider).
  { intros b. unfold OPLL.construct_in_build, assert_passes.
    destruct b; cbn [orb].
    - split; [discriminate | intros [H _]; discriminate H].
    - destruct (Z.leb_spec audio_divider 4) as [Hle|Hgt].
      + split; [discriminate | intros [_ H]; lia].
      + split; [intros _; split; [reflexivity | exact Hgt] | reflexivity]. }
  assert (Hsome : forall b,
             b = true \/ audio_divider <= 4
             <-> exists o,
                   construct_in_build b members audio_divider is_vrc7
                   = Some o).
  { intros b. specialize (Hnone b).
    destruct (construct_in_build b members audio_divider is_vrc7) as [o|].
    - split; [intros _; exists o; reflexivity|]. intros _.
      destruct b; [left; reflexivity|]. right.
      destruct (Z.leb_spec audio_divider 4) as [Hle|Hgt]; [exact Hle|].
      destruct Hnone as [_ Hn]. discriminate Hn. split; [reflexivity|exact Hgt].
    - destruct Hnone as [Hn _]. destruct (Hn eq_refl) as [-> Hgt].
      split; [intros [H|H]; [discriminate H | lia]|].
      intros [o Ho]. discriminate Ho. }
  split; [apply Hnone|]. split; [apply Hsome|]. split; [apply Hdiv|].
  unfold OPLL.construct. split.
  - rewrite (Hnone false). split; [intros [_ H]; exact H|].
    intros H. split; [reflexivity | exact H].
  - split.
    + intros Hle. destruct (proj1 (Hsome false) (or_intror Hle)) as [o Ho].
      exists o. split; [exact Ho | apply (Hdiv false o Ho)].
    + intros (o & Ho & _).
      destruct (proj2 (Hsome false) (ex_intro _ o Ho)) as [H|H];
        [discriminate H | exact H].
Qed.

End Chip.

(** Without assertions the constructor takes divider 5: it returns a chip
    that stores 5, where the build with assertions returns none. *)
Lemma construct_ndebug_accepts_five :
  (exists o,
     construct_in_build unit [] [] [] true zero_chip 5 false = Some o
     /\ audio_divider_ unit o = 5)
  /\ construct_in_build unit [] [] [] false zero_chip 5 false = None.
Proof. split; [eexists; split; reflexivity | reflexivity]. Qed.

Lemma custom_instrument_write_witness :
  let o' := write_register_task unit still_channel still_channel 4 0xf3 zero_chip in
  0 <= 4 < 8
  /\ custom_instrument_ unit o' = [0; 0; 0; 0; 0xf3; 0; 0; 0]
  /\ (forall i : nat,
        (2 <= i)%nat ->
        operators_ unit o' !! i = operators_ unit zero_chip !! i)
  /\ channels_ unit o' = channels_ unit zero_chip.
Proof.
  cbv zeta.
  pose proof (custom_instrument_write unit still_channel still_channel 4 0xf3
                zero_chip ltac:(lia)) as H.
  cbv zeta in H. destruct H as (_ & _ & Hops & Hch & _).
  split; [lia|]. split; [reflexivity|]. split; [exact Hops | exact Hch].
Defined.

End OPLLFacts.

(** ** The envelope over many ticks *)
Module EnvelopeLaws.

Import Int32 Int32Facts Operator DecoderFacts EnvelopeFacts.

Section Laws.

Variable negative_log_sin : Z -> LogSign.
Variable shl_undefined : Z -> Z -> Z.

Local Abbreviation update := (Operator.update negative_log_sin shl_undefined).
Local Abbreviation run := (Operator.run negative_log_sin shl_undefined).
Local Abbreviation step := (Operator.step negative_log_sin shl_undefined).
Local Abbreviation envelope := (Operator.envelope shl_undefined).
Local Abbreviation at_switch op s key_on period octave offset :=
  (Operator.at_switch negative_log_sin shl_undefined op s
     (mkTick key_on period octave offset)).

Local Abbreviation switch_phase := (at_switch_phase negative_log_sin shl_undefined).
Local Abbreviation switch_time := (at_switch_time negative_log_sin shl_undefined).
Local Abbreviation switch_attenuation :=
  (at_switch_attenuation negative_log_sin shl_undefined).
Local Abbreviation result_phase := (update_phase negative_log_sin shl_undefined).
Local Abbreviation result_time := (update_time negative_log_sin shl_undefined).
Local Abbreviation result_attenuation :=
  (update_attenuation negative_log_sin shl_undefined).
Local Abbreviation result_last_key_on :=
  (update_last_key_on negative_log_sin shl_undefined).

Lemma run_step op ov s t rest :
  run op ov s (t :: rest) = run op ov (step op ov s t) rest.
Proof. reflexivity. Qed.

Lemma run_snoc op ov s ticks t :
  run op ov s (ticks ++ [t]) = step op ov (run op ov s ticks) t.
Proof. unfold Operator.run. rewrite fold_left_app. reflexivity. Qed.

(** *** The phase graph *)

Lemma envelope_may_follow op ov s :
  may_follow (adsr_phase_ s) (adsr_phase_ (envelope op ov s)) = true.
Proof.
  unfold Operator.envelope, Operator.attack, Operator.decay_release.
  destruct (adsr_phase_ s) eqn:Hp; cbv zeta; simpl; rewrite ?Hp; simpl;
    repeat match goal with
           | |- context [if ?c then _ else _] => destruct c; simpl
           end; rewrite ?Hp; reflexivity.
Qed.

Lemma envelope_sustain_origin op ov s :
  adsr_phase_ (envelope op ov s) = Sustain ->
  adsr_phase_ s = Sustain
  \/ adsr_phase_ s = Decay /\ holds_sustain op ov = true.
Proof.
  unfold Operator.envelope, Operator.attack, Operator.decay_release.
  destruct (adsr_phase_ s) eqn:Hp; cbv zeta; simpl; rewrite ?Hp; simpl;
    repeat match goal with
           | |- context [if ?c then _ else _] => destruct c eqn:?; simpl
           end; rewrite ?Hp; intros H; try discriminate H; auto.
Qed.

(** X1.  One call of [update] moves the envelope along the edges of a fixed
    graph.  The key-on logic first selects the phase the [switch] starts
    from: Release when [key_on] is false, Attack on a key-on edge, the stored
    phase otherwise.  From there the call ends in the same phase, or takes
    Attack to Decay, or Decay to Sustain or Release; Sustain and Release are
    never left by the [switch], and Sustain is entered only from Decay with a
    sustain-hold switch set (the operator's or the overrides'). *)
Theorem phase_transitions op s key_on period octave offset ov :
  let s3 := at_switch op s key_on period octave offset in
  let s' := update op s key_on period octave offset ov in
  adsr_phase_ s3
  = (if negb key_on then Release
     else if negb (last_key_on_ s) then Attack else adsr_phase_ s)
  /\ may_follow (adsr_phase_ s3) (adsr_phase_ s') = true
  /\ (adsr_phase_ s' = Sustain ->
      adsr_phase_ s3 = Sustain
      \/ adsr_phase_ s3 = Decay /\ holds_sustain op ov = true).
Proof.
  cbv zeta. split; [apply switch_phase|].
  rewrite result_phase. split.
  - apply envelope_may_follow.
  - apply envelope_sustain_origin.
Qed.

(** *** Sustain *)

Lemma sustain_tick op ov s period octave offset :
  adsr_phase_ s = Sustain -> last_key_on_ s = true ->
  let s' := update op s true period octave offset ov in
  adsr_phase_ s' = Sustain
  /\ adsr_attenuation_ s' = adsr_attenuation_ s
  /\ last_key_on_ s' = true
  /\ time_in_phase_ s' = Int32.add (time_in_phase_ s) 1.
Proof.
  intros Hp Hl. cbv zeta.
  assert (H3 : adsr_phase_ (at_switch op s true period octave offset) = Sustain)
    by (rewrite switch_phase, Hl; exact Hp).
  rewrite result_phase, result_attenuation, result_last_key_on, result_time.
  cbv zeta. unfold Operator.envelope. rewrite H3. cbv iota.
  rewrite H3, switch_attenuation, switch_time, Hl.
  repeat split; reflexivity.
Qed.

(** X2.  Sustain holds while the key is held: from a voice in Sustain whose
    last key-on level is true, any run of ticks with [key_on] true ends in
    Sustain with the envelope attenuation it started with. *)
Theorem sustain_holds op ov ticks :
  forall s,
    adsr_phase_ s = Sustain ->
    last_key_on_ s = true ->
    forallb tick_key_on ticks = true ->
    adsr_phase_ (run op ov s ticks) = Sustain
    /\ adsr_attenuation_ (run op ov s ticks) = adsr_attenuation_ s
    /\ last_key_on_ (run op ov s ticks) = true.
Proof.
  induction ticks as [|[k p o off] rest IH]; intros s Hp Hl Hk.
  - repeat split; assumption.
  - simpl in Hk. apply andb_prop in Hk as [Hk Hrest]. subst k.
    rewrite run_step. unfold Operator.step.
    cbn [tick_key_on tick_period tick_octave tick_phase_offset].
    destruct (sustain_tick op ov s p o off Hp Hl) as (Hp' & Ha' & Hl' & _).
    destruct (IH _ Hp' Hl' Hrest) as (E1 & E2 & E3).
    repeat split; congruence.
Qed.

(** *** Release with the key off *)

Lemma first_tick_step_range rate : 0 <= first_tick_step rate <= 4.
Proof.
  unfold first_tick_step. destruct (rate =? 0); [lia|].
  destruct (Z.shiftr rate 2) as [|[p|p|]|]; try destruct p; lia.
Qed.

Lemma first_tick_step_positive rate : rate <> 0 -> 1 <= first_tick_step rate.
Proof.
  intros Hr. unfold first_tick_step. destruct (Z.eqb_spec rate 0); [lia|].
  destruct (Z.shiftr rate 2) as [|[p|p|]|]; try destruct p; lia.
Qed.

(** With the counter at 0 the Decay/Release step does not look at the sample
    length. *)
Lemma decrease_attenuation_first_tick op s :
  envelope_in_range s -> time_in_phase_ s = 0 ->
  decrease_attenuation shl_undefined op s
  = adsr_attenuation_ s + first_tick_step (decrease_rate op s).
Proof.
  unfold envelope_in_range, decrease_attenuation, first_tick_step.
  intros Ha Ht. rewrite Ht. destruct (_ =? 0); [lia|].
  destruct (Z.shiftr _ 2) as [|[p|p|]|]; try destruct p;
    rewrite ?Z.land_0_l; simpl; int_simpl; reflexivity.
Qed.

Lemma release_attenuation op ov s :
  adsr_phase_ s = Release ->
  adsr_attenuation_ (decay_release shl_undefined op ov s)
  = Z.min (decrease_attenuation shl_undefined op s) 511.
Proof.
  intros Hp. unfold Operator.decay_release. cbv zeta. simpl.
  rewrite Hp. reflexivity.
Qed.

Lemma key_off_tick op ov s period octave offset :
  envelope_in_range s ->
  let s' := update op s false period octave offset ov in
  adsr_phase_ s' = Release
  /\ adsr_attenuation_ s'
     = Z.min (adsr_attenuation_ s + first_tick_step (release_rate_ op)) 511.
Proof.
  intros Ha. cbv zeta.
  assert (Hp : adsr_phase_ (at_switch op s false period octave offset) = Release)
    by (rewrite switch_phase; reflexivity).
  assert (Ht : time_in_phase_ (at_switch op s false period octave offset) = 0)
    by (rewrite switch_time; reflexivity).
  rewrite result_phase, result_attenuation.
  unfold Operator.envelope. rewrite Hp.
  split; [apply (decay_release_in_release shl_undefined), Hp|].
  rewrite release_attenuation by exact Hp.
  rewrite decrease_attenuation_first_tick
    by (try exact Ht; unfold envelope_in_range;
        rewrite switch_attenuation; exact Ha).
  unfold decrease_rate. rewrite Hp, switch_attenuation. reflexivity.
Qed.

Lemma key_off_keeps_range op ov s period octave offset :
  envelope_in_range s ->
  envelope_in_range (update op s false period octave offset ov).
Proof.
  intros Ha. destruct (key_off_tick op ov s period octave offset Ha) as [_ Hs].
  pose proof (first_tick_step_range (release_rate_ op)).
  unfold envelope_in_range in *. rewrite Hs. lia.
Qed.

Lemma key_off_run op ov ticks :
  forall s,
    envelope_in_range s ->
    forallb (fun t => negb (tick_key_on t)) ticks = true ->
    adsr_attenuation_ (run op ov s ticks)
    = Z.min (adsr_attenuation_ s
             + Z.of_nat (length ticks) * first_tick_step (release_rate_ op))
        511.
Proof.
  pose proof (first_tick_step_range (release_rate_ op)) as Hk.
  induction ticks as [|[k p o off] rest IH]; intros s Ha Hoff.
  - unfold envelope_in_range in Ha. simpl. lia.
  - simpl in Hoff. apply andb_prop in Hoff as [Hk0 Hrest].
    destruct k; [discriminate|].
    rewrite run_step. unfold Operator.step.
    cbn [tick_key_on tick_period tick_octave tick_phase_offset].
    destruct (key_off_tick op ov s p o off Ha) as [_ Hs].
    rewrite IH; [| apply key_off_keeps_range; exact Ha | exact Hrest].
    rewrite Hs. unfold envelope_in_range in Ha.
    cbn [length]. rewrite Nat2Z.inj_succ. nia.
Qed.

Lemma silent_at_511 op s ov :
  adsr_attenuation_ s = 511 -> is_audible op s ov = false.
Proof.
  intros Ha. unfold is_audible. cbv zeta. rewrite Ha.
  change (negb (511 =? 511)) with false.
  destruct (ADSRPhase_eqb _ _); [destruct ov|];
    try destruct (_ =? _); reflexivity.
Qed.

(** X3.  With the key off the counter of ticks in phase is reset on every
    tick, so the Release step never waits for the sample length: a run of
    key-off ticks adds, per tick, 4 at release rate nibble 1, 2 at nibble 2,
    1 at every other nonzero rate and 0 at rate 0, up to the ceiling 511,
    whatever an out-of-range shift yields.  The run ends in Release, and with
    a nonzero release rate 511 key-off ticks bring any voice to attenuation
    511, where [is_audible] is false. *)
Theorem key_off_release op ov s ticks :
  envelope_in_range s ->
  forallb (fun t => negb (tick_key_on t)) ticks = true ->
  let s' := run op ov s ticks in
  adsr_attenuation_ s'
  = Z.min (adsr_attenuation_ s
           + Z.of_nat (length ticks) * first_tick_step (release_rate_ op))
      511
  /\ (ticks <> [] -> adsr_phase_ s' = Release)
  /\ (release_rate_ op <> 0 -> (511 <= length ticks)%nat ->
      adsr_attenuation_ s' = 511 /\ is_audible op s' ov = false).
Proof.
  intros Ha Hoff. cbv zeta.
  pose proof (key_off_run op ov ticks s Ha Hoff) as Hrun.
  split; [exact Hrun|]. split.
  - intros Hne. destruct (exists_last Hne) as (front & [k p o off] & ->).
    rewrite forallb_app in Hoff. apply andb_prop in Hoff as [Hfront Hlast].
    simpl in Hlast. destruct k; [discriminate|].
    rewrite run_snoc. unfold Operator.step.
    cbn [tick_key_on tick_period tick_octave tick_phase_offset].
    rewrite result_phase. unfold Operator.envelope.
    assert (Hp : forall x,
               adsr_phase_ (at_switch op x false p o off) = Release)
      by (intros x; rewrite switch_phase; reflexivity).
    rewrite Hp. apply (decay_release_in_release shl_undefined), Hp.
  - intros Hr Hlen.
    pose proof (first_tick_step_positive _ Hr) as Hk.
    assert (E : adsr_attenuation_ (run op ov s ticks) = 511).
    { rewrite Hrun. unfold envelope_in_range in Ha. nia. }
    split; [exact E | apply silent_at_511, E].
Qed.

(** *** The first tick of an attack *)

Lemma attack_attenuation_first_tick op s :
  envelope_in_range s -> time_in_phase_ s = 0 ->
  attack_attenuation shl_undefined op s
  = first_attack_step op (adsr_attenuation_ s).
Proof.
  unfold envelope_in_range, attack_attenuation, first_attack_step.
  intros Ha Ht. rewrite Ht, Z.land_0_l, shiftr_2, shiftr_3. simpl.
  destruct (56 <=? attack_rate_ op); int_simpl; reflexivity.
Qed.

(** X4.  A key-on edge always takes one Attack step in the same call, at
    every attack rate: the counter is 0 on that tick, so the sample length is
    not consulted.  With a decoded configuration the attenuation [a] becomes
    [a - a/4 - 1] from attack rate 56 on and [a - a/8 - 1] below, and the
    voice enters Decay at attenuation 0 only if that is not positive; no
    decodable attack rate (at most 60) takes the rate exit of the Attack case,
    so no attack is instantaneous. *)
Theorem key_on_first_step op s period octave offset ov :
  decoded op ->
  envelope_in_range s ->
  last_key_on_ s = false ->
  let a1 := first_attack_step op (adsr_attenuation_ s) in
  let s' := update op s true period octave offset ov in
  adsr_attenuation_ s' = Z.max a1 0
  /\ adsr_phase_ s' = (if a1 <=? 0 then Decay else Attack)
  /\ (2 <= adsr_attenuation_ s -> adsr_phase_ s' = Attack).
Proof.
  intros Hd Ha Hl. cbv zeta.
  assert (Hp : adsr_phase_ (at_switch op s true period octave offset) = Attack)
    by (rewrite switch_phase, Hl; reflexivity).
  assert (Ht : time_in_phase_ (at_switch op s true period octave offset) = 0)
    by (rewrite switch_time, Hl; reflexivity).
  assert (Ha3 : envelope_in_range (at_switch op s true period octave offset))
    by (unfold envelope_in_range; rewrite switch_attenuation; exact Ha).
  rewrite result_phase, result_attenuation.
  unfold Operator.envelope. rewrite Hp.
  rewrite (attack_phase shl_undefined) by exact Hp.
  rewrite (attack_result shl_undefined).
  rewrite attack_attenuation_first_tick by assumption.
  rewrite switch_attenuation.
  destruct (decoded_attack op Hd) as [Hr _].
  assert (E : (60 <? attack_rate_ op) = false) by lia. rewrite E. simpl.
  unfold envelope_in_range in Ha.
  destruct (Z.leb_spec (first_attack_step op (adsr_attenuation_ s)) 0) as [H0|H0].
  - split; [lia|]. split; [reflexivity|].
    intros H2. exfalso. unfold first_attack_step in H0.
    destruct (56 <=? attack_rate_ op); range_solve.
  - repeat split; lia.
Qed.

(** *** Leaving Decay *)

Lemma decay_release_time op ov s :
  time_in_phase_ (decay_release shl_undefined op ov s) = time_in_phase_ s.
Proof.
  unfold Operator.decay_release. cbv zeta. destruct (_ && _); reflexivity.
Qed.

(** X5.  A tick taken in Decay steps and clamps the attenuation to 511, and
    leaves Decay exactly when the result has reached [sustain_level_ << 5]
    (the sustain level times 32 for a decoded configuration): the attenuation
    is then set to exactly that level, the phase to Sustain if a sustain-hold
    switch is set (the operator's or the overrides') and to Release
    otherwise, and the counter of ticks in phase to 0.  Otherwise the voice
    stays in Decay with the stepped attenuation and the counter goes up by
    one. *)
Theorem decay_exit op s key_on period octave offset ov :
  decoded op ->
  adsr_phase_ (at_switch op s key_on period octave offset) = Decay ->
  let s3 := at_switch op s key_on period octave offset in
  let s' := update op s key_on period octave offset ov in
  let a := Z.min (decrease_attenuation shl_undefined op s3) 511 in
  let level := sustain_level_ op * 32 in
  if level <=? a
  then adsr_attenuation_ s' = level
       /\ adsr_phase_ s' = (if holds_sustain op ov then Sustain else Release)
       /\ time_in_phase_ s' = 0
  else adsr_attenuation_ s' = a
       /\ adsr_phase_ s' = Decay
       /\ time_in_phase_ s' = Int32.add (time_in_phase_ s) 1.
Proof.
  intros Hd Hp. cbv zeta.
  assert (Hk : key_on = true /\ last_key_on_ s = true).
  { rewrite switch_phase in Hp.
    destruct key_on, (last_key_on_ s); simpl in Hp; try discriminate; auto. }
  destruct Hk as [-> Hl].
  rewrite result_phase, result_attenuation, result_time. cbv zeta.
  unfold Operator.envelope. rewrite Hp.
  rewrite (decay_release_phase shl_undefined) by exact Hd.
  rewrite (decay_release_result shl_undefined) by exact Hd.
  rewrite decay_release_time. cbv zeta. rewrite Hp.
  cbn [ADSRPhase_eqb andb].
  destruct (_ <=? _).
  - destruct (holds_sustain op ov); repeat split; reflexivity.
  - cbn [ADSRPhase_eqb]. rewrite switch_time, Hl. repeat split; reflexivity.
Qed.

(** *** The phase accumulator and the waveform *)

(** X6.  The raw phase accumulator is never reset: whatever the key-on levels
    and envelope phases of a run of ticks, it ends at the starting value plus
    the sum of the ticks' phase increments, wrapped to 32 bits. *)
Theorem raw_phase_accumulates op ov ticks :
  forall s,
    Int32.in_range (raw_phase_ s) ->
    raw_phase_ (run op ov s ticks)
    = Int32.wrap
        (raw_phase_ s
         + fold_right Z.add 0
             (map (fun t =>
                     phase_increment shl_undefined op (tick_period t)
                       (tick_octave t))
                ticks)).
Proof.
  induction ticks as [|[k p o off] rest IH]; intros s Hr.
  - simpl. rewrite Z.add_0_r. symmetry. apply wrap_small, Hr.
  - rewrite run_step. unfold Operator.step.
    cbn [tick_key_on tick_period tick_octave tick_phase_offset].
    rewrite IH
      by (rewrite (update_raw_phase negative_log_sin shl_undefined);
          apply wrap_in_range).
    rewrite (update_raw_phase negative_log_sin shl_undefined).
    unfold Int32.add. rewrite wrap_add_l. f_equal. simpl. lia.
Qed.

(** *** How long a fast attack lasts *)

Lemma held_tick_stays_out op ov s period octave offset :
  adsr_phase_ s <> Attack -> last_key_on_ s = true ->
  adsr_phase_ (update op s true period octave offset ov) <> Attack.
Proof.
  intros Hp Hl. rewrite result_phase.
  pose proof (envelope_may_follow op ov
                (at_switch op s true period octave offset)) as Hm.
  rewrite switch_phase, Hl in Hm. simpl in Hm.
  destruct (adsr_phase_ s); try contradiction;
    destruct (adsr_phase_ (envelope op ov _)); discriminate.
Qed.

Lemma held_run_stays_out op ov ticks :
  forall s,
    adsr_phase_ s <> Attack -> last_key_on_ s = true ->
    forallb tick_key_on ticks = true ->
    adsr_phase_ (run op ov s ticks) <> Attack.
Proof.
  induction ticks as [|[k p o off] rest IH]; intros s Hp Hl Hk.
  - exact Hp.
  - simpl in Hk. apply andb_prop in Hk as [Hk Hrest]. subst k.
    rewrite run_step. apply IH; [| | exact Hrest]; unfold Operator.step;
      cbn [tick_key_on tick_period tick_octave tick_phase_offset].
    + apply held_tick_stays_out; assumption.
    + apply result_last_key_on.
Qed.

Lemma fast_attack_tick op ov s period octave offset :
  56 <= attack_rate_ op <= 60 ->
  envelope_in_range s ->
  last_key_on_ s = false \/ adsr_phase_ s = Attack ->
  let a1 := adsr_attenuation_ s - adsr_attenuation_ s / 4 - 1 in
  let s' := update op s true period octave offset ov in
  adsr_attenuation_ s' = Z.max a1 0
  /\ adsr_phase_ s' = (if a1 <=? 0 then Decay else Attack).
Proof.
  intros Hr Ha Hq. cbv zeta.
  assert (Hp : adsr_phase_ (at_switch op s true period octave offset) = Attack).
  { rewrite switch_phase. destruct (last_key_on_ s); simpl;
      destruct Hq; congruence. }
  rewrite result_phase, result_attenuation.
  unfold Operator.envelope. rewrite Hp.
  rewrite (attack_phase shl_undefined) by exact Hp.
  rewrite (attack_result shl_undefined).
  unfold Operator.attack_attenuation. cbv zeta.
  assert (E56 : (56 <=? attack_rate_ op) = true) by lia.
  assert (E60 : (60 <? attack_rate_ op) = false) by lia.
  rewrite E56, E60, switch_attenuation, shiftr_2. simpl.
  unfold envelope_in_range in Ha. int_simpl.
  destruct (Z.leb_spec (adsr_attenuation_ s - adsr_attenuation_ s / 4 - 1) 0);
    split; try reflexivity; lia.
Qed.

Lemma fast_attack_iterates op ov ticks :
  56 <= attack_rate_ op <= 60 ->
  forall s,
    envelope_in_range s ->
    last_key_on_ s = false \/ adsr_phase_ s = Attack ->
    forallb tick_key_on ticks = true ->
    ticks <> [] ->
    adsr_phase_ (run op ov s ticks) = Attack ->
    0 < Nat.iter (length ticks) (fun a => a - a / 4 - 1) (adsr_attenuation_ s).
Proof.
  intros Hr. induction ticks as [|[k p o off] rest IH]; intros s Ha Hq Hk Hne Hp.
  - contradiction.
  - simpl in Hk. apply andb_prop in Hk as [Hk Hrest]. subst k.
    rewrite run_step in Hp. unfold Operator.step in Hp.
    cbn [tick_key_on tick_period tick_octave tick_phase_offset] in Hp.
    destruct (fast_attack_tick op ov s p o off Hr Ha Hq) as [Hatt Hph].
    cbv zeta in Hatt, Hph.
    set (s1 := update op s true p o off ov) in *.
    assert (Hl1 : last_key_on_ s1 = true) by apply result_last_key_on.
    destruct (Z.leb_spec (adsr_attenuation_ s - adsr_attenuation_ s / 4 - 1) 0)
      as [H0|H0].
    + exfalso. revert Hp. apply held_run_stays_out; try assumption.
      rewrite Hph. discriminate.
    + cbn [length]. rewrite Nat.iter_succ_r.
      assert (E : adsr_attenuation_ s1
                  = adsr_attenuation_ s - adsr_attenuation_ s / 4 - 1) by lia.
      destruct rest as [|t rest'].
      * simpl. lia.
      * rewrite <- E. apply IH; try assumption; try discriminate.
        -- unfold envelope_in_range in *. rewrite E. range_solve.
        -- right. exact Hph.
Qed.

Lemma fast_attack_exhausted (n : nat) a :
  0 <= a <= 511 ->
  Nat.iter (19 + n) (fun a => a - a / 4 - 1) a <= 0.
Proof.
  intros Ha. induction n as [|n IH].
  - pose proof (forall_below
      (fun x => Nat.iter 19 (fun a => a - a / 4 - 1) x <=? 0) 512 eq_refl a
      ltac:(lia)) as H.
    cbv beta in H. rewrite Nat.add_0_r. apply Z.leb_le. exact H.
  - replace (19 + S n)%nat with (S (19 + n)) by lia.
    rewrite Nat.iter_succ. range_solve.
Qed.

(** X8.  An attack at rate 56 or 60, the two fastest the decoders produce,
    is over within 19 ticks: however the attack starts (a key-on edge from any
    phase, or a voice already in Attack) and whatever the attenuation on the
    0..511 scale, after any run of at least 19 ticks with the key held the
    voice has left Attack. *)
Theorem fast_attack_completes op ov s ticks :
  56 <= attack_rate_ op <= 60 ->
  envelope_in_range s ->
  last_key_on_ s = false \/ adsr_phase_ s = Attack ->
  forallb tick_key_on ticks = true ->
  (19 <= length ticks)%nat ->
  adsr_phase_ (run op ov s ticks) <> Attack.
Proof.
  intros Hr Ha Hq Hk Hlen Hp.
  assert (Hne : ticks <> []) by (destruct ticks; simpl in *; [lia|discriminate]).
  pose proof (fast_attack_iterates op ov ticks Hr s Ha Hq Hk Hne Hp) as Hpos.
  replace (length ticks) with (19 + (length ticks - 19))%nat in Hpos by lia.
  pose proof (fast_attack_exhausted (length ticks - 19) _ Ha). lia.
Qed.

End Laws.

Lemma quadrant_cases phase :
  let q := Z.land (Z.shiftr phase 8) 3 in
  q = (phase / 256) mod 4 /\ (q = 0 \/ q = 1 \/ q = 2 \/ q = 3).
Proof.
  cbv zeta.
  assert (E : Z.land (Z.shiftr phase 8) 3 = (phase / 256) mod 4).
  { change 3 with (Z.ones 2).
    rewrite Z.land_ones, Z.shiftr_div_pow2 by lia. reflexivity. }
  rewrite E. split; [reflexivity|].
  pose proof (Z.mod_pos_bound (phase / 256) 4 eq_refl). lia.
Qed.

Lemma land_1023 p : Z.land p 1023 = p mod 1024.
Proof. change 1023 with (Z.ones 10). apply Z.land_ones. lia. Qed.

Lemma land_511 p : Z.land p 511 = p mod 512.
Proof. change 511 with (Z.ones 9). apply Z.land_ones. lia. Qed.

Lemma land_255 p : Z.land p 255 = p mod 256.
Proof. change 255 with (Z.ones 8). apply Z.land_ones. lia. Qed.

(** X7.  The argument of the log-sin lookup is always a table index from 0 to
    1023, for every 32-bit phase, negative ones included.  By waveform, with
    the quadrant [(phase / 256) mod 4]: Sine passes the phase modulo 1024;
    HalfSine passes the phase modulo 512 in quadrants 0 and 1 and gives 0 in
    quadrants 2 and 3; AbsSine passes the phase modulo 512; PulseSine passes
    the phase modulo 256 in the even quadrants and gives 0 in the odd ones. *)
Theorem masked_phase_folds op phase :
  0 <= masked_phase op phase <= 1023
  /\ masked_phase op phase
     = match waveform_ op with
       | Sine => phase mod 1024
       | HalfSine => if (phase / 256) mod 4 <? 2 then phase mod 512 else 0
       | AbsSine => phase mod 512
       | PulseSine => if (phase / 256) mod 2 =? 0 then phase mod 256 else 0
       end.
Proof.
  unfold masked_phase.
  destruct (quadrant_cases phase) as [Hq Hcases]. cbv zeta in Hq, Hcases.
  pose proof (Z.mod_pos_bound phase 1024 eq_refl).
  pose proof (Z.mod_pos_bound phase 512 eq_refl).
  pose proof (Z.mod_pos_bound phase 256 eq_refl).
  assert (Hodd : (phase / 256) mod 2 = ((phase / 256) mod 4) mod 2).
  { Z.div_mod_to_equations. lia. }
  rewrite Hodd, <- Hq.
  destruct (waveform_ op);
    destruct Hcases as [E|[E|[E|E]]]; rewrite E;
    cbn [waveform_mask int_of_waveform waveforms table nth Z.to_nat
         Pos.to_nat Pos.iter_op Nat.add Z.ltb Z.eqb Z.compare Pos.compare
         Pos.compare_cont Z.modulo Z.div_eucl Z.pos_div_eucl Z.leb Z.mul
         Z.sub Z.add Z.opp Pos.mul Pos.add Z.pos_sub Z.succ_double
         Z.pred_double Z.double Pos.pred_double fst snd];
    rewrite ?land_1023, ?land_511, ?land_255, ?Z.land_0_r;
    split; try reflexivity; lia.
Qed.

(** *** The laws on the sample voice *)

Lemma sustain_holds_witness :
  let s := mkOperatorState (mkLogSign 0 1) 0 Sustain 7 96 true in
  let ticks := repeat key_held 3 in
  let s' := run silent_table zero_shift sustained_operator None s ticks in
  adsr_phase_ s = Sustain
  /\ last_key_on_ s = true
  /\ forallb tick_key_on ticks = true
  /\ adsr_phase_ s' = Sustain
  /\ adsr_attenuation_ s' = adsr_attenuation_ s
  /\ last_key_on_ s' = true.
Proof.
  cbv zeta. split; [reflexivity|]. split; [reflexivity|].
  split; [reflexivity|].
  exact (sustain_holds silent_table zero_shift sustained_operator None
           (repeat key_held 3)
           (mkOperatorState (mkLogSign 0 1) 0 Sustain 7 96 true)
           eq_refl eq_refl eq_refl).
Defined.

Lemma key_off_release_witness :
  let op := set_sustain_release zero_operator 0x07 in
  let s := set_adsr_attenuation idle_state 0 in
  let ticks := repeat key_off 511 in
  let s' := run silent_table zero_shift op None s ticks in
  envelope_in_range s
  /\ forallb (fun t => negb (tick_key_on t)) ticks = true
  /\ adsr_attenuation_ s'
     = Z.min (adsr_attenuation_ s
              + Z.of_nat (length ticks) * first_tick_step (release_rate_ op))
         511
  /\ (ticks <> [] -> adsr_phase_ s' = Release)
  /\ (release_rate_ op <> 0 -> (511 <= length ticks)%nat ->
      adsr_attenuation_ s' = 511 /\ is_audible op s' None = false).
Proof.
  cbv zeta.
  assert (Ha : envelope_in_range (set_adsr_attenuation idle_state 0))
    by (unfold envelope_in_range; simpl; lia).
  split; [exact Ha|]. split; [reflexivity|].
  exact (key_off_release silent_table zero_shift
           (set_sustain_release zero_operator 0x07) None _
           (repeat key_off 511) Ha eq_refl).
Defined.

Lemma key_on_first_step_witness :
  let op := sustained_operator in
  let s := idle_state in
  let a1 := first_attack_step op (adsr_attenuation_ s) in
  let s' := update silent_table zero_shift op s true 0 0 0 None in
  decoded op
  /\ envelope_in_range s
  /\ last_key_on_ s = false
  /\ adsr_attenuation_ s' = Z.max a1 0
  /\ adsr_phase_ s' = (if a1 <=? 0 then Decay else Attack)
  /\ (2 <= adsr_attenuation_ s -> adsr_phase_ s' = Attack).
Proof.
  cbv zeta. split; [exact sustained_operator_decoded|].
  split; [exact idle_state_in_range|]. split; [reflexivity|].
  exact (key_on_first_step silent_table zero_shift sustained_operator
           idle_state 0 0 0 None sustained_operator_decoded
           idle_state_in_range eq_refl).
Defined.

Lemma decay_exit_witness :
  let op := sustained_operator in
  let s :=
    run silent_table zero_shift op None idle_state (repeat key_held 30) in
  let s3 := at_switch silent_table zero_shift op s key_held in
  let s' := update silent_table zero_shift op s true 0 0 0 None in
  let a := Z.min (decrease_attenuation zero_shift op s3) 511 in
  let level := sustain_level_ op * 32 in
  decoded op
  /\ adsr_phase_ s3 = Decay
  /\ (if level <=? a
      then adsr_attenuation_ s' = level
           /\ adsr_phase_ s' = (if holds_sustain op None then Sustain else Release)
           /\ time_in_phase_ s' = 0
      else adsr_attenuation_ s' = a
           /\ adsr_phase_ s' = Decay
           /\ time_in_phase_ s' = Int32.add (time_in_phase_ s) 1).
Proof.
  cbv zeta. split; [exact sustained_operator_decoded|].
  split; [reflexivity|].
  exact (decay_exit silent_table zero_shift sustained_operator
           (run silent_table zero_shift sustained_operator None
              idle_state (repeat key_held 30))
           true 0 0 0 None sustained_operator_decoded eq_refl).
Defined.

Lemma raw_phase_accumulates_witness :
  let op := set_am_vibrato_hold_sustain_ksr_multiple zero_operator 0x01 in
  let ticks := [mkTick true 512 3 0; mkTick false 512 3 0] in
  Int32.in_range (raw_phase_ idle_state)
  /\ raw_phase_ (run silent_table zero_shift op None idle_state ticks)
     = 2 * (2 * 512 * 2 ^ 3).
Proof.
  cbv zeta.
  assert (Hr : Int32.in_range (raw_phase_ idle_state))
    by (unfold Int32.in_range, Int32.min_int, Int32.max_int; simpl; lia).
  split; [exact Hr|].
  exact (raw_phase_accumulates silent_table zero_shift
           (set_am_vibrato_hold_sustain_ksr_multiple zero_operator 0x01) None
           [mkTick true 512 3 0; mkTick false 512 3 0] idle_state Hr).
Defined.

Lemma fast_attack_completes_witness :
  let op := sustained_operator in
  let ticks := repeat key_held 19 in
  56 <= attack_rate_ op <= 60
  /\ envelope_in_range idle_state
  /\ (last_key_on_ idle_state = false \/ adsr_phase_ idle_state = Attack)
  /\ forallb tick_key_on ticks = true
  /\ (19 <= length ticks)%nat
  /\ adsr_phase_ (run silent_table zero_shift op None idle_state ticks)
     <> Attack.
Proof.
  cbv zeta.
  assert (Hr : 56 <= attack_rate_ sustained_operator <= 60)
    by (vm_compute; split; intros H; discriminate H).
  assert (Hn : (19 <= length (repeat key_held 19))%nat) by (simpl; lia).
  split; [exact Hr|]. split; [exact idle_state_in_range|].
  split; [left; reflexivity|]. split; [reflexivity|]. split; [exact Hn|].
  exact (fast_attack_completes silent_table zero_shift sustained_operator None
           idle_state (repeat key_held 19) Hr idle_state_in_range
           (or_introl eq_refl) eq_refl Hn).
Defined.

(** The attack of the sample voice takes all of the 19 ticks: after 18 held
    ticks it is still in Attack, at attenuation 1. *)
Lemma fast_attack_takes_19 :
  let s :=
    run silent_table zero_shift sustained_operator None idle_state
      (repeat key_held 18) in
  adsr_phase_ s = Attack /\ adsr_attenuation_ s = 1.
Proof. vm_compute. split; reflexivity. Qed.

Lemma update_defined_witness :
  let op := set_sustain_release zero_operator 0x07 in
  let s3 := at_switch silent_table zero_shift op idle_state key_off in
  decoded op
  /\ 0 <= 0 < 32
  /\ (adsr_phase_ s3 = Decay \/ adsr_phase_ s3 = Release)
  /\ decrease_rate op s3 <> 12
  /\ update silent_table zero_shift op idle_state false 0 0 0 None
     = update silent_table (fun _ _ => 1) op idle_state false 0 0 0 None.
Proof.
  cbv zeta.
  assert (Hd : decoded (set_sustain_release zero_operator 0x07))
    by apply set_sustain_release_decoded, zero_operator_decoded.
  assert (Hn : decrease_rate (set_sustain_release zero_operator 0x07)
                 (at_switch silent_table zero_shift
                    (set_sustain_release zero_operator 0x07) idle_state
                    key_off) <> 12)
    by (vm_compute; discriminate).
  split; [exact Hd|]. split; [lia|]. split; [right; reflexivity|].
  split; [exact Hn|].
  exact (update_defined silent_table zero_shift (fun _ _ => 1)
           (set_sustain_release zero_operator 0x07) idle_state false 0 0 0
           None Hd ltac:(lia) (fun _ => Hn)).
Defined.

End EnvelopeLaws.

(** ** The register layout of an operator *)
Module DecoderLaws.

Import Int32Facts Operator.

Lemma byte_of_nibbles a d :
  0 <= a <= 15 -> 0 <= d <= 15 ->
  0 <= 16 * a + d < 256 /\ (16 * a + d) / 16 = a /\ (16 * a + d) mod 16 = d.
Proof. intros Ha Hd. Z.div_mod_to_equations. lia. Qed.

(** X9.  The two envelope bytes hold two nibbles each: written with the byte
    [16 * a + d], the attack/decay register gives attack rate [4 * a] and
    decay rate [4 * d], and the sustain/release register gives sustain level
    [a] and release rate [4 * d]. *)
Theorem envelope_registers_unpack op a d :
  0 <= a <= 15 -> 0 <= d <= 15 ->
  attack_rate_ (set_attack_decay op (16 * a + d)) = 4 * a
  /\ decay_rate_ (set_attack_decay op (16 * a + d)) = 4 * d
  /\ sustain_level_ (set_sustain_release op (16 * a + d)) = a
  /\ release_rate_ (set_sustain_release op (16 * a + d)) = 4 * d.
Proof.
  intros Ha Hd. destruct (byte_of_nibbles a d Ha Hd) as (Hb & Hq & Hr).
  pose proof (forall_below
    (fun x => (Z.shiftr (Z.land x 0xf0) 2 =? 4 * (x / 16))
              && (Z.shiftl (Z.land x 0x0f) 2 =? 4 * (x mod 16))
              && (Z.shiftr (Z.land x 0xf0) 4 =? x / 16))
    256 eq_refl (16 * a + d) Hb) as H.
  cbv beta in H. apply andb_prop in H as [H H3]. apply andb_prop in H as [H1 H2].
  apply Z.eqb_eq in H1, H2, H3. rewrite Hq in H1, H3. rewrite Hr in H2.
  simpl. repeat split; assumption.
Qed.

(** X10.  The other three registers: the mode byte holds the four switches
    in bits 7 to 4 (amplitude modulation, vibrato, sustain hold, key scaling
    rate) and the frequency multiple in its low nibble; the scaling/output
    byte holds the key-scaling level in its top two bits and the static
    attenuation in the low six; the waveform byte selects waveform [w] for
    [w] from 0 to 3. *)
Theorem mode_registers_unpack op (am vib hold ksr : bool) m k a w :
  0 <= m <= 15 -> 0 <= k <= 3 -> 0 <= a <= 63 -> 0 <= w <= 3 ->
  let mode :=
    128 * Z.b2z am + 64 * Z.b2z vib + 32 * Z.b2z hold + 16 * Z.b2z ksr + m in
  let p := set_am_vibrato_hold_sustain_ksr_multiple op mode in
  let q := set_scaling_output op (64 * k + a) in
  apply_amplitude_modulation_ p = am
  /\ apply_vibrato_ p = vib
  /\ use_sustain_level_ p = hold
  /\ key_scaling_rate_ p = ksr
  /\ frequency_multiple_ p = m
  /\ level_key_scaling_ q = k
  /\ attenuation_ q = a
  /\ int_of_waveform (waveform_ (set_waveform op w)) = w.
Proof.
  intros Hm Hk Ha Hw. cbv zeta.
  pose proof (forall_below
    (fun x => Bool.eqb (flag x 0x80) (x / 128 mod 2 =? 1)
              && Bool.eqb (flag x 0x40) (x / 64 mod 2 =? 1)
              && Bool.eqb (flag x 0x20) (x / 32 mod 2 =? 1)
              && Bool.eqb (flag x 0x10) (x / 16 mod 2 =? 1)
              && (Z.land x 0xf =? x mod 16)
              && (Z.shiftr x 6 =? x / 64)
              && (Z.land x 0x3f =? x mod 64))
    256 eq_refl) as Hbyte.
  cbv beta in Hbyte.
  assert (Hw' : w = 0 \/ w = 1 \/ w = 2 \/ w = 3) by lia.
  split; [|split; [|split; [|split; [|split; [|split; [|split]]]]]].
  8: { destruct Hw' as [->|[->|[->| ->]]]; reflexivity. }
  1-5: assert (Hmode : 0 <= 128 * Z.b2z am + 64 * Z.b2z vib
                              + 32 * Z.b2z hold + 16 * Z.b2z ksr + m < 256)
         by (destruct am, vib, hold, ksr; simpl Z.b2z; lia);
       specialize (Hbyte _ Hmode).
  6-7: assert (Hscale : 0 <= 64 * k + a < 256) by lia;
       specialize (Hbyte _ Hscale).
  all: repeat (apply andb_prop in Hbyte as [Hbyte ?]).
  all: repeat match goal with
              | H : Bool.eqb _ _ = true |- _ => apply Bool.eqb_prop in H
              | H : (_ =? _) = true |- _ => apply Z.eqb_eq in H
              end.
  all: simpl.
  1-4: match goal with
       | H : flag _ ?mask = _ |- flag _ ?mask = _ => rewrite H
       end;
       destruct am, vib, hold, ksr; simpl Z.b2z;
       match goal with
       | |- (?x =? 1) = ?b =>
           destruct (Z.eqb_spec x 1) as [E|E]; try reflexivity; exfalso;
           revert E; Z.div_mod_to_equations; lia
       end.
  - match goal with H : Z.land _ 0xf = _ |- _ => rewrite H end.
    destruct am, vib, hold, ksr; simpl Z.b2z; Z.div_mod_to_equations; lia.
  - match goal with H : Z.shiftr _ 6 = _ |- _ => rewrite H end.
    Z.div_mod_to_equations; lia.
  - match goal with H : Z.land _ 0x3f = _ |- _ => rewrite H end.
    Z.div_mod_to_equations; lia.
Qed.

(** X11.  The five registers of an operator are independent: a second write
    to a register replaces the first, and writes to two different registers
    give the same operator in either order. *)
Theorem registers_independent op v w :
  set_attack_decay (set_attack_decay op v) w = set_attack_decay op w
  /\ set_sustain_release (set_sustain_release op v) w = set_sustain_release op w
  /\ set_scaling_output (set_scaling_output op v) w = set_scaling_output op w
  /\ set_waveform (set_waveform op v) w = set_waveform op w
  /\ set_am_vibrato_hold_sustain_ksr_multiple
       (set_am_vibrato_hold_sustain_ksr_multiple op v) w
     = set_am_vibrato_hold_sustain_ksr_multiple op w
  /\ set_attack_decay (set_sustain_release op v) w
     = set_sustain_release (set_attack_decay op w) v
  /\ set_attack_decay (set_scaling_output op v) w
     = set_scaling_output (set_attack_decay op w) v
  /\ set_attack_decay (set_waveform op v) w
     = set_waveform (set_attack_decay op w) v
  /\ set_attack_decay (set_am_vibrato_hold_sustain_ksr_multiple op v) w
     = set_am_vibrato_hold_sustain_ksr_multiple (set_attack_decay op w) v
  /\ set_sustain_release (set_scaling_output op v) w
     = set_scaling_output (set_sustain_release op w) v
  /\ set_sustain_release (set_waveform op v) w
     = set_waveform (set_sustain_release op w) v
  /\ set_sustain_release (set_am_vibrato_hold_sustain_ksr_multiple op v) w
     = set_am_vibrato_hold_sustain_ksr_multiple (set_sustain_release op w) v
  /\ set_scaling_output (set_waveform op v) w
     = set_waveform (set_scaling_output op w) v
  /\ set_scaling_output (set_am_vibrato_hold_sustain_ksr_multiple op v) w
     = set_am_vibrato_hold_sustain_ksr_multiple (set_scaling_output op w) v
  /\ set_waveform (set_am_vibrato_hold_sustain_ksr_multiple op v) w
     = set_am_vibrato_hold_sustain_ksr_multiple (set_waveform op w) v.
Proof. repeat split. Qed.

Lemma envelope_registers_unpack_witness :
  0 <= 15 <= 15 /\ 0 <= 3 <= 15
  /\ attack_rate_ (set_attack_decay zero_operator (16 * 15 + 3)) = 4 * 15
  /\ decay_rate_ (set_attack_decay zero_operator (16 * 15 + 3)) = 4 * 3
  /\ sustain_level_ (set_sustain_release zero_operator (16 * 15 + 3)) = 15
  /\ release_rate_ (set_sustain_release zero_operator (16 * 15 + 3)) = 4 * 3.
Proof.
  split; [lia|]. split; [lia|].
  exact (envelope_registers_unpack zero_operator 15 3 ltac:(lia) ltac:(lia)).
Defined.

Lemma mode_registers_unpack_witness :
  let mode :=
    128 * Z.b2z true + 64 * Z.b2z false + 32 * Z.b2z true + 16 * Z.b2z false
    + 9 in
  let p := set_am_vibrato_hold_sustain_ksr_multiple zero_operator mode in
  let q := set_scaling_output zero_operator (64 * 2 + 41) in
  0 <= 9 <= 15 /\ 0 <= 2 <= 3 /\ 0 <= 41 <= 63 /\ 0 <= 3 <= 3
  /\ apply_amplitude_modulation_ p = true
  /\ apply_vibrato_ p = false
  /\ use_sustain_level_ p = true
  /\ key_scaling_rate_ p = false
  /\ frequency_multiple_ p = 9
  /\ level_key_scaling_ q = 2
  /\ attenuation_ q = 41
  /\ int_of_waveform (waveform_ (set_waveform zero_operator 3)) = 3.
Proof.
  cbv zeta. split; [lia|]. split; [lia|]. split; [lia|]. split; [lia|].
  exact (mode_registers_unpack zero_operator true false true false 9 2 41 3
           ltac:(lia) ltac:(lia) ltac:(lia) ltac:(lia)).
Defined.

End DecoderLaws.

(** ** The OPLL register file, register by register *)
Module OPLLLaws.

Import Int32Facts Operator DecoderFacts OPLL.

Section Chip.

Variable ChannelBase : Type.
Variable set_frequency_low : ChannelBase -> Z -> ChannelBase.
Variable set_9bit_frequency_octave_key_on : ChannelBase -> Z -> ChannelBase.

Local Abbreviation OPLL := (OPLL.OPLL ChannelBase).
Local Abbreviation write_register_task :=
  (OPLL.write_register_task ChannelBase set_frequency_low
     set_9bit_frequency_octave_key_on).
Local Abbreviation operators_ := (OPLL.operators_ ChannelBase).
Local Abbreviation channels_ := (OPLL.channels_ ChannelBase).
Local Abbreviation custom_instrument_ := (OPLL.custom_instrument_ ChannelBase).
Local Abbreviation task_queue_ := (OPLL.task_queue_ ChannelBase).

(** Splits the [switch] over the register bank. *)
Ltac bank_cases :=
  repeat match goal with
         | |- context [match ?p with _ => _ end] => destruct p
         end.

(** *** The bus protocol *)

Lemma write_pair_queue register value (o : OPLL) :
  write_pair ChannelBase register value o
  = set_task_queue ChannelBase
      (set_selected_register ChannelBase o register)
      (task_queue_ o ++ [mkTask register value]).
Proof. reflexivity. Qed.

Lemma issue_cons r v rest (o : OPLL) :
  issue ChannelBase ((r, v) :: rest) o
  = issue ChannelBase rest (write_pair ChannelBase r v o).
Proof. reflexivity. Qed.

(** X12.  Register writes reach the chip through the queue only, and in
    order: after any sequence of select-and-write pairs the queue is the old
    queue followed by one task per pair, in the order issued, and no
    operator, channel, instrument byte or mode register has changed yet. *)
Theorem writes_queue_in_order pairs :
  forall o : OPLL,
    let o' := issue ChannelBase pairs o in
    task_queue_ o'
    = task_queue_ o ++ map (fun rv => mkTask (fst rv) (snd rv)) pairs
    /\ operators_ o' = operators_ o
    /\ channels_ o' = channels_ o
    /\ custom_instrument_ o' = custom_instrument_ o
    /\ rhythm_overrides_ ChannelBase o' = rhythm_overrides_ ChannelBase o
    /\ depth_rhythm_control_ ChannelBase o'
       = depth_rhythm_control_ ChannelBase o.
Proof.
  induction pairs as [|[r v] rest IH]; intros o; cbv zeta.
  - simpl. rewrite app_nil_r. repeat split; reflexivity.
  - rewrite issue_cons.
    destruct (IH (write_pair ChannelBase r v o)) as (Hq & Ho & Hc & Hi & Hr & Hd).
    rewrite Hq, Ho, Hc, Hi, Hr, Hd. rewrite write_pair_queue. simpl.
    rewrite <- app_assoc. repeat split; reflexivity.
Qed.

(** *** The channel registers *)

(** X13.  A deferred write to a register the OPLL does not have is ignored:
    from address 8 on, unless the address is 0xe, a write whose low nibble is
    above 8 or whose high nibble is none of 1, 2 and 3 leaves the chip as it
    was. *)
Theorem unmapped_write_ignored address value (o : OPLL) :
  8 <= address ->
  address <> 0xe ->
  8 < Z.land address 0xf
  \/ (Z.land address 0xf0 <> 0x10 /\ Z.land address 0xf0 <> 0x20
      /\ Z.land address 0xf0 <> 0x30) ->
  write_register_task address value o = o.
Proof.
  intros H8 He Hbank. unfold OPLL.write_register_task.
  assert (E8 : (address <? 8) = false) by lia.
  assert (Ee : (address =? 0xe) = false) by lia.
  rewrite E8, Ee. cbv zeta.
  destruct (Z.ltb_spec 8 (Z.land address 0xf)) as [Hi|Hi]; [reflexivity|].
  destruct Hbank as [Hbank|(H1 & H2 & H3)]; [lia|].
  destruct (Z.land address 0xf0) as [|p|p]; try reflexivity.
  bank_cases; try reflexivity; contradiction.
Qed.

(** X14.  Only registers 0 to 7 reach the operators: a deferred write to any
    address from 8 on leaves every operator and the custom-instrument bytes
    as they were, and changes no channel but the one the low nibble of the
    address names. *)
Theorem channel_write_frame address value (o : OPLL) :
  8 <= address ->
  let o' := write_register_task address value o in
  operators_ o' = operators_ o
  /\ custom_instrument_ o' = custom_instrument_ o
  /\ length (channels_ o') = length (channels_ o)
  /\ (forall i : nat,
        i <> Z.to_nat (Z.land address 0xf) ->
        channels_ o' !! i = channels_ o !! i).
Proof.
  intros H8. cbv zeta. unfold OPLL.write_register_task.
  assert (E8 : (address <? 8) = false) by lia.
  rewrite E8. cbv zeta.
  destruct (address =? 0xe); [repeat split; reflexivity|].
  destruct (8 <? Z.land address 0xf); [repeat split; reflexivity|].
  destruct (Z.land address 0xf0) as [|p|p]; [repeat split; reflexivity| |].
  - bank_cases; (split; [reflexivity|]); (split; [reflexivity|]);
      (split; [unfold on_rhythm_override, on_channel; simpl;
               rewrite ?length_alter; reflexivity|]);
      intros i Hi; unfold on_rhythm_override, on_channel; simpl;
      rewrite ?list_lookup_alter_ne by congruence; reflexivity.
  - repeat split; reflexivity.
Qed.

Lemma select_bank ch value (o : OPLL) :
  0 <= ch <= 8 ->
  write_register_task (0x30 + ch) value o
  = let o1 :=
      on_channel ChannelBase ch
        (fun c => set_modulator ChannelBase c (Z.shiftr value 4 * 2))
        (on_channel ChannelBase ch
           (fun c =>
              set_overrides ChannelBase c
                (set_override_attenuation (overrides ChannelBase c)
                   (Z.land value 0xf)))
           o) in
    if 6 <=? ch
    then on_rhythm_override ChannelBase ((ch - 6) * 2 + 1)
           (fun r => set_override_attenuation r (Z.land value 0xf))
           (on_rhythm_override ChannelBase ((ch - 6) * 2 + 0)
              (fun r => set_override_attenuation r (Z.shiftr value 4)) o1)
    else o1.
Proof.
  intros Hch.
  assert (Hcases : ch = 0 \/ ch = 1 \/ ch = 2 \/ ch = 3 \/ ch = 4 \/ ch = 5
                   \/ ch = 6 \/ ch = 7 \/ ch = 8) by lia.
  destruct Hcases as [->|[->|[->|[->|[->|[->|[->|[->| ->]]]]]]]]; reflexivity.
Qed.

(** X15.  The instrument register of channel [ch] (address [0x30 + ch])
    stores the low nibble of the value as the channel's volume and points
    the channel at the operator pair of the instrument in the high nibble:
    the modulator is slot twice the instrument number, so the carrier, one
    slot up, is at most slot 31 of the 38. *)
Theorem instrument_select ch value (o : OPLL) c :
  0 <= ch <= 8 ->
  0 <= value < 256 ->
  channels_ o !! Z.to_nat ch = Some c ->
  let o' := write_register_task (0x30 + ch) value o in
  channels_ o' !! Z.to_nat ch
  = Some (mkChannel ChannelBase (base ChannelBase c) (2 * (value / 16))
            (mkOperatorOverrides (value mod 16)
               (override_use_sustain_level (overrides ChannelBase c)))
            (level ChannelBase c))
  /\ 0 <= 2 * (value / 16) + 1 <= 31
  /\ (ch < 6 ->
      rhythm_overrides_ ChannelBase o' = rhythm_overrides_ ChannelBase o).
Proof.
  intros Hch Hv Hc. cbv zeta.
  assert (Hshift : Z.shiftr value 4 * 2 = 2 * (value / 16)).
  { rewrite Z.shiftr_div_pow2 by lia. change (2 ^ 4) with 16. lia. }
  assert (Hland : Z.land value 0xf = value mod 16).
  { change 0xf with (Z.ones 4). rewrite Z.land_ones by lia. reflexivity. }
  assert (Hcases : ch = 0 \/ ch = 1 \/ ch = 2 \/ ch = 3 \/ ch = 4 \/ ch = 5
                   \/ ch = 6 \/ ch = 7 \/ ch = 8) by lia.
  clear Hcases. rewrite select_bank by exact Hch. cbv zeta.
  split; [|split; [Z.div_mod_to_equations; lia|]].
  - destruct (6 <=? ch); unfold on_rhythm_override, on_channel; simpl;
      rewrite !list_lookup_alter_eq, Hc; simpl;
      rewrite Hshift, Hland; reflexivity.
  - intros H6. assert (E : (6 <=? ch) = false) by lia. rewrite E. reflexivity.
Qed.

End Chip.

Lemma unmapped_write_ignored_witness :
  8 <= 0x3f
  /\ 0x3f <> 0xe
  /\ (8 < Z.land 0x3f 0xf
      \/ (Z.land 0x3f 0xf0 <> 0x10 /\ Z.land 0x3f 0xf0 <> 0x20
          /\ Z.land 0x3f 0xf0 <> 0x30))
  /\ write_register_task unit still_channel still_channel 0x3f 0xaa zero_chip
     = zero_chip.
Proof.
  assert (H8 : 8 <= 0x3f) by lia.
  assert (He : 0x3f <> 0xe) by lia.
  assert (Hi : 8 < Z.land 0x3f 0xf) by reflexivity.
  split; [exact H8|]. split; [exact He|]. split; [left; exact Hi|].
  exact (unmapped_write_ignored unit still_channel still_channel 0x3f 0xaa
           zero_chip H8 He (or_introl Hi)).
Defined.

Lemma channel_write_frame_witness :
  let o' :=
    write_register_task unit still_channel still_channel 0x25 0x3f zero_chip in
  8 <= 0x25
  /\ operators_ unit o' = operators_ unit zero_chip
  /\ custom_instrument_ unit o' = custom_instrument_ unit zero_chip
  /\ length (channels_ unit o') = length (channels_ unit zero_chip)
  /\ (forall i : nat,
        i <> Z.to_nat (Z.land 0x25 0xf) ->
        channels_ unit o' !! i = channels_ unit zero_chip !! i).
Proof.
  cbv zeta. assert (H8 : 8 <= 0x25) by lia. split; [exact H8|].
  exact (channel_write_frame unit still_channel still_channel 0x25 0x3f
           zero_chip H8).
Defined.

Lemma instrument_select_witness :
  let c := mkChannel unit tt 0 (mkOperatorOverrides 0 false) 0 in
  let o' :=
    write_register_task unit still_channel still_channel (0x30 + 7) 0xf4
      zero_chip in
  0 <= 7 <= 8
  /\ 0 <= 0xf4 < 256
  /\ channels_ unit zero_chip !! Z.to_nat 7 = Some c
  /\ channels_ unit o' !! Z.to_nat 7
     = Some (mkChannel unit tt (2 * (0xf4 / 16))
               (mkOperatorOverrides (0xf4 mod 16) false) 0)
  /\ 0 <= 2 * (0xf4 / 16) + 1 <= 31
  /\ (7 < 6 ->
      rhythm_overrides_ unit o' = rhythm_overrides_ unit zero_chip).
Proof.
  cbv zeta.
  assert (Hch : 0 <= 7 <= 8) by lia.
  assert (Hv : 0 <= 0xf4 < 256) by lia.
  split; [exact Hch|]. split; [exact Hv|]. split; [reflexivity|].
  exact (instrument_select unit still_channel still_channel 7 0xf4 zero_chip
           (mkChannel unit tt 0 (mkOperatorOverrides 0 false) 0)
           Hch Hv eq_refl).
Defined.

End OPLLLaws.

(** ** The OPLL instruments *)
Module InstrumentLaws.

Import Int32Facts Operator DecoderFacts OPLL.

Section Chip.

Variable ChannelBase : Type.
Variable set_frequency_low : ChannelBase -> Z -> ChannelBase.
Variable set_9bit_frequency_octave_key_on : ChannelBase -> Z -> ChannelBase.
Variable opll_patch_set : list Z.
Variable vrc7_patch_set : list Z.
Variable percussion_patch_set : list Z.

Local Abbreviation OPLL := (OPLL.OPLL ChannelBase).
Local Abbreviation write_register_task :=
  (OPLL.write_register_task ChannelBase set_frequency_low
     set_9bit_frequency_octave_key_on).
Local Abbreviation setup_fixed_instrument :=
  (OPLL.setup_fixed_instrument ChannelBase).
Local Abbreviation operators_ := (OPLL.operators_ ChannelBase).
Local Abbreviation channels_ := (OPLL.channels_ ChannelBase).
Local Abbreviation custom_instrument_ := (OPLL.custom_instrument_ ChannelBase).
Local Abbreviation well_formed := (OPLL.well_formed ChannelBase).
Local Abbreviation construct :=
  (OPLL.construct ChannelBase opll_patch_set vrc7_patch_set
     percussion_patch_set).

(** *** One instrument *)

Lemma setup_slots number data (o : OPLL) :
  0 <= number ->
  operators_ (setup_fixed_instrument number data o) !! Z.to_nat (number * 2)
  = modulator_patch data <$> operators_ o !! Z.to_nat (number * 2)
  /\ operators_ (setup_fixed_instrument number data o)
       !! Z.to_nat (number * 2 + 1)
     = carrier_patch data <$> operators_ o !! Z.to_nat (number * 2 + 1).
Proof.
  intros Hn.
  assert (Hne : Z.to_nat (number * 2) <> Z.to_nat (number * 2 + 1)) by lia.
  unfold OPLL.setup_fixed_instrument, on_operator.
  cbn [OPLL.operators_ set_operators].
  split.
  - repeat first [ rewrite list_lookup_alter_eq
                 | rewrite list_lookup_alter_ne by congruence ].
    destruct (operators_ o !! _); reflexivity.
  - repeat first [ rewrite list_lookup_alter_eq
                 | rewrite list_lookup_alter_ne by congruence ].
    destruct (operators_ o !! _); reflexivity.
Qed.

Lemma setup_other number data (o : OPLL) (i : nat) :
  i <> Z.to_nat (number * 2) -> i <> Z.to_nat (number * 2 + 1) ->
  operators_ (setup_fixed_instrument number data o) !! i = operators_ o !! i.
Proof.
  intros Hm Hc. unfold OPLL.setup_fixed_instrument, on_operator.
  cbn [OPLL.operators_ set_operators].
  rewrite !list_lookup_alter_ne by congruence. reflexivity.
Qed.

Lemma setup_length number data (o : OPLL) :
  length (operators_ (setup_fixed_instrument number data o))
  = length (operators_ o).
Proof.
  unfold OPLL.setup_fixed_instrument, on_operator.
  cbn [OPLL.operators_ set_operators]. rewrite !length_alter. reflexivity.
Qed.

Lemma setup_decoded number data (o : OPLL) :
  Forall decoded (operators_ o) ->
  Forall decoded (operators_ (setup_fixed_instrument number data o)).
Proof.
  intros Hd. unfold OPLL.setup_fixed_instrument, on_operator.
  cbn [OPLL.operators_ set_operators].
  repeat (apply Forall_alter;
          [| intros x _ Hx;
             auto using set_attack_decay_decoded, set_sustain_release_decoded,
               set_scaling_output_decoded, set_waveform_decoded,
               set_am_vibrato_hold_sustain_ksr_multiple_decoded]).
  exact Hd.
Qed.

Lemma setup_rest number data (o : OPLL) :
  setup_fixed_instrument number data o
  = set_operators ChannelBase o
      (operators_ (setup_fixed_instrument number data o)).
Proof. reflexivity. Qed.

Lemma modulator_patch_fixed data m m' :
  modulator_patch data m = modulator_patch data m'.
Proof. reflexivity. Qed.

Lemma carrier_patch_absorbs data data' c :
  carrier_patch data (carrier_patch data' c) = carrier_patch data c.
Proof. reflexivity. Qed.

(** X16.  [setup_fixed_instrument] rewrites the operator pair of the
    instrument from the 8 bytes: the modulator, slot [number * 2], gets every
    register from bytes 0, 2, 3, 4 and 6, whatever it held; the carrier, one
    slot up, gets its mode, waveform and envelope from bytes 1, 3, 5 and 7
    and keeps the static attenuation and key-scaling level it had, which no
    patch byte reaches.  The chip's other members are untouched. *)
Theorem instrument_slots number data (o : OPLL) :
  0 <= number ->
  let o' := setup_fixed_instrument number data o in
  operators_ o' !! Z.to_nat (number * 2)
  = modulator_patch data <$> operators_ o !! Z.to_nat (number * 2)
  /\ operators_ o' !! Z.to_nat (number * 2 + 1)
     = carrier_patch data <$> operators_ o !! Z.to_nat (number * 2 + 1)
  /\ (forall m m', modulator_patch data m = modulator_patch data m')
  /\ (forall c,
        attenuation_ (carrier_patch data c) = attenuation_ c
        /\ level_key_scaling_ (carrier_patch data c) = level_key_scaling_ c)
  /\ o' = set_operators ChannelBase o (operators_ o').
Proof.
  intros Hn. cbv zeta. destruct (setup_slots number data o Hn) as [Hm Hc].
  split; [exact Hm|]. split; [exact Hc|].
  split; [intros m m'; reflexivity|]. split; [intros c; split; reflexivity|].
  reflexivity.
Qed.

(** *** The well-formed chip *)

Lemma modulator_of_byte value :
  0 <= value < 256 ->
  0 <= Z.shiftr value 4 * 2 <= 30 /\ (Z.shiftr value 4 * 2) mod 2 = 0.
Proof.
  intros Hv. rewrite Z.shiftr_div_pow2 by lia. change (2 ^ 4) with 16.
  split; [Z.div_mod_to_equations; lia | apply Z_mod_mult].
Qed.

(** X17.  Deferred writes keep the chip well formed: whatever the address and
    the byte written, the arrays keep their sizes (38 operators, 9 channels,
    8 custom bytes), every operator stays within the decoders' ranges, and
    every channel's modulator stays an even slot from 0 to 30, so that
    [modulator + 1] is always a slot of [operators_] as well. *)
Theorem write_keeps_well_formed address value (o : OPLL) :
  0 <= value < 256 ->
  well_formed o ->
  well_formed (write_register_task address value o).
Proof.
  intros Hv [Hlo Hlc Hli Hd Hm].
  pose proof (modulator_of_byte value Hv) as Hmod.
  unfold OPLL.write_register_task.
  destruct (address <? 8).
  - constructor.
    + rewrite setup_length. exact Hlo.
    + exact Hlc.
    + cbn. rewrite length_insert. exact Hli.
    + apply setup_decoded. exact Hd.
    + exact Hm.
  - destruct (address =? 0xe); [constructor; assumption|].
    cbv zeta. destruct (8 <? Z.land address 0xf); [constructor; assumption|].
    destruct (Z.land address 0xf0) as [|p|p]; [constructor; assumption| |].
    + repeat match goal with
             | |- context [match ?q with _ => _ end] => destruct q
             end;
        try (constructor; assumption);
        constructor;
        unfold on_rhythm_override, on_channel; cbn;
        rewrite ?length_alter; try assumption;
        repeat (apply Forall_alter; [| intros c _ Hc; cbn; first [exact Hc | exact Hmod]]);
        assumption.
    + constructor; assumption.
Qed.

(** *** The custom instrument *)

Lemma custom_write_effect a v (o : OPLL) :
  0 <= a < 8 ->
  let o' := write_register_task a v o in
  custom_instrument_ o' = <[Z.to_nat a := v]> (custom_instrument_ o)
  /\ operators_ o' !! 0%nat
     = modulator_patch (custom_instrument_ o') <$> operators_ o !! 0%nat
  /\ operators_ o' !! 1%nat
     = carrier_patch (custom_instrument_ o') <$> operators_ o !! 1%nat.
Proof.
  intros Ha. cbv zeta. unfold OPLL.write_register_task.
  assert (E : (a <? 8) = true) by lia. rewrite E.
  split; [reflexivity|].
  exact (setup_slots 0 _
           (set_custom_instrument ChannelBase o
              (<[Z.to_nat a := v]> (custom_instrument_ o)))
           ltac:(lia)).
Qed.

(** X18.  Programming the custom instrument with the 8 bytes of a patch
    (deferred writes to registers 0 to 7) stores the bytes and leaves operator
    slots 0 and 1 exactly as [setup_fixed_instrument] leaves the pair of a
    fixed instrument installed from the same bytes, given that the two
    carriers started with the same static attenuation and key-scaling level
    (which a patch does not set). *)
Theorem custom_program_matches_patch data (o : OPLL) m c :
  length (custom_instrument_ o) = 8%nat ->
  operators_ o !! 0%nat = Some m ->
  operators_ o !! 1%nat = Some c ->
  let o' :=
    program_custom ChannelBase set_frequency_low
      set_9bit_frequency_octave_key_on data o in
  custom_instrument_ o' = map (byte_at data) (seq 0 8)
  /\ operators_ o' !! 0%nat = Some (modulator_patch data m)
  /\ operators_ o' !! 1%nat = Some (carrier_patch data c)
  /\ (forall number (o2 : OPLL) m2 c2,
        0 <= number ->
        operators_ o2 !! Z.to_nat (number * 2) = Some m2 ->
        operators_ o2 !! Z.to_nat (number * 2 + 1) = Some c2 ->
        attenuation_ c2 = attenuation_ c ->
        level_key_scaling_ c2 = level_key_scaling_ c ->
        operators_ (setup_fixed_instrument number data o2)
          !! Z.to_nat (number * 2)
        = operators_ o' !! 0%nat
        /\ operators_ (setup_fixed_instrument number data o2)
             !! Z.to_nat (number * 2 + 1)
           = operators_ o' !! 1%nat).
Proof.
  intros Hlen Hm Hc. cbv zeta.
  destruct (custom_write_effect 0 (byte_at data 0) o ltac:(lia))
    as (I0 & M0 & C0). cbv zeta in I0, M0, C0.
  set (o0 := write_register_task 0 (byte_at data 0) o) in *.
  destruct (custom_write_effect 1 (byte_at data 1) o0 ltac:(lia))
    as (I1 & M1 & C1). cbv zeta in I1, M1, C1.
  set (o1 := write_register_task 1 (byte_at data 1) o0) in *.
  destruct (custom_write_effect 2 (byte_at data 2) o1 ltac:(lia))
    as (I2 & M2 & C2). cbv zeta in I2, M2, C2.
  set (o2 := write_register_task 2 (byte_at data 2) o1) in *.
  destruct (custom_write_effect 3 (byte_at data 3) o2 ltac:(lia))
    as (I3 & M3 & C3). cbv zeta in I3, M3, C3.
  set (o3 := write_register_task 3 (byte_at data 3) o2) in *.
  destruct (custom_write_effect 4 (byte_at data 4) o3 ltac:(lia))
    as (I4 & M4 & C4). cbv zeta in I4, M4, C4.
  set (o4 := write_register_task 4 (byte_at data 4) o3) in *.
  destruct (custom_write_effect 5 (byte_at data 5) o4 ltac:(lia))
    as (I5 & M5 & C5). cbv zeta in I5, M5, C5.
  set (o5 := write_register_task 5 (byte_at data 5) o4) in *.
  destruct (custom_write_effect 6 (byte_at data 6) o5 ltac:(lia))
    as (I6 & M6 & C6). cbv zeta in I6, M6, C6.
  set (o6 := write_register_task 6 (byte_at data 6) o5) in *.
  destruct (custom_write_effect 7 (byte_at data 7) o6 ltac:(lia))
    as (I7 & M7 & C7). cbv zeta in I7, M7, C7.
  set (o7 := write_register_task 7 (byte_at data 7) o6) in *.
  assert (Hbytes : custom_instrument_ o7 = map (byte_at data) (seq 0 8)).
  { rewrite I7, I6, I5, I4, I3, I2, I1, I0.
    destruct (custom_instrument_ o) as [|x0 [|x1 [|x2 [|x3 [|x4 [|x5 [|x6
      [|x7 [|x8 rest]]]]]]]]]; try discriminate Hlen. reflexivity. }
  assert (Hmod : operators_ o7 !! 0%nat = Some (modulator_patch data m)).
  { rewrite M7, M6, M5, M4, M3, M2, M1, M0, Hm, Hbytes. reflexivity. }
  assert (Hcar : operators_ o7 !! 1%nat = Some (carrier_patch data c)).
  { rewrite C7, C6, C5, C4, C3, C2, C1, C0, Hc, Hbytes. reflexivity. }
  change (program_custom ChannelBase set_frequency_low
            set_9bit_frequency_octave_key_on data o) with o7.
  split; [exact Hbytes|]. split; [exact Hmod|]. split; [exact Hcar|].
  intros number q m2 c2 Hn Hm2 Hc2 Hatt Hlks.
  destruct (setup_slots number data q Hn) as [Sm Sc].
  rewrite Sm, Sc, Hm2, Hc2, Hmod, Hcar. simpl.
  split; [reflexivity|].
  destruct c2, c. simpl in Hatt, Hlks. subst. reflexivity.
Qed.

(** *** Construction *)

Lemma install_other (number : nat -> Z) (data : nat -> list Z) (l : list nat)
    (i : nat) :
  forall o : OPLL,
    (forall c, In c l ->
               i <> Z.to_nat (number c * 2)
               /\ i <> Z.to_nat (number c * 2 + 1)) ->
    operators_
      (fold_left (fun o c => setup_fixed_instrument (number c) (data c) o) l o)
      !! i
    = operators_ o !! i.
Proof.
  induction l as [|c l IH]; intros o Hi; [reflexivity|].
  cbn [fold_left]. rewrite IH by (intros c' Hc'; apply Hi; right; exact Hc').
  destruct (Hi c (or_introl eq_refl)) as [H1 H2].
  apply setup_other; assumption.
Qed.

Lemma install_slot (number : nat -> Z) (data : nat -> list Z) (l : list nat)
    (c : nat) :
  forall o : OPLL,
    NoDup l -> In c l ->
    (forall c', In c' l -> 0 <= number c') ->
    (forall c', In c' l -> c' <> c -> number c' <> number c) ->
    let o' :=
      fold_left (fun o c => setup_fixed_instrument (number c) (data c) o) l o in
    operators_ o' !! Z.to_nat (number c * 2)
    = modulator_patch (data c) <$> operators_ o !! Z.to_nat (number c * 2)
    /\ operators_ o' !! Z.to_nat (number c * 2 + 1)
       = carrier_patch (data c)
           <$> operators_ o !! Z.to_nat (number c * 2 + 1).
Proof.
  induction l as [|c0 l IH]; intros o Hnd Hin Hpos Hinj; [contradiction|].
  cbv zeta. cbn [fold_left].
  apply NoDup_cons in Hnd as [Hfresh Hnd].
  assert (Hc0 : 0 <= number c0) by (apply Hpos; left; reflexivity).
  destruct (Nat.eq_dec c0 c) as [->|Hne].
  - rewrite !install_other.
    + apply setup_slots. exact Hc0.
    + intros c' Hc'.
      assert (number c' <> number c)
        by (apply Hinj; [right; exact Hc' | intros ->; apply Hfresh;
            apply list_elem_of_In; exact Hc']).
      assert (0 <= number c') by (apply Hpos; right; exact Hc'). lia.
    + intros c' Hc'.
      assert (number c' <> number c)
        by (apply Hinj; [right; exact Hc' | intros ->; apply Hfresh;
            apply list_elem_of_In; exact Hc']).
      assert (0 <= number c') by (apply Hpos; right; exact Hc'). lia.
  - assert (Hin' : In c l) by (destruct Hin; [contradiction | assumption]).
    assert (Hcpos : 0 <= number c) by (apply Hpos; right; exact Hin').
    assert (Hdiff : number c0 <> number c)
      by (apply Hinj; [left; reflexivity | exact Hne]).
    destruct (IH (setup_fixed_instrument (number c0) (data c0) o)) as [Hm Hc];
      try assumption.
    + intros c' Hc'. apply Hpos. right. exact Hc'.
    + intros c' Hc' Hne'. apply Hinj; [right; exact Hc' | exact Hne'].
    + rewrite Hm, Hc. rewrite !setup_other by lia. split; reflexivity.
Qed.

Lemma install_length (number : nat -> Z) (data : nat -> list Z) (l : list nat) :
  forall o : OPLL,
    length (operators_
              (fold_left
                 (fun o c => setup_fixed_instrument (number c) (data c) o) l o))
    = length (operators_ o).
Proof.
  induction l as [|c l IH]; intros o; [reflexivity|].
  cbn [fold_left]. rewrite IH. apply setup_length.
Qed.

Lemma install_decoded (number : nat -> Z) (data : nat -> list Z)
    (l : list nat) :
  forall o : OPLL,
    Forall decoded (operators_ o) ->
    Forall decoded
      (operators_
         (fold_left
            (fun o c => setup_fixed_instrument (number c) (data c) o) l o)).
Proof.
  induction l as [|c l IH]; intros o Hd; [exact Hd|].
  cbn [fold_left]. apply IH, setup_decoded, Hd.
Qed.

Lemma install_rest (number : nat -> Z) (data : nat -> list Z) (l : list nat) :
  forall o : OPLL,
    fold_left (fun o c => setup_fixed_instrument (number c) (data c) o) l o
    = set_operators ChannelBase o
        (operators_
           (fold_left
              (fun o c => setup_fixed_instrument (number c) (data c) o) l o)).
Proof.
  induction l as [|c l IH]; intros o.
  - destruct o; reflexivity.
  - cbn [fold_left]. rewrite IH at 1. reflexivity.
Qed.

Lemma default_modulators (o : OPLL) :
  length (channels_ o) = 9%nat ->
  channels_ (set_default_modulators ChannelBase o)
  = (fun ch => set_modulator ChannelBase ch 0) <$> channels_ o.
Proof.
  intros Hlen. unfold set_default_modulators, on_channel.
  cbn [fold_left seq OPLL.channels_ set_channels Z.of_nat Pos.of_succ_nat
       Pos.succ Z.to_nat Pos.to_nat Pos.iter_op Nat.add].
  destruct (channels_ o) as [|c0 [|c1 [|c2 [|c3 [|c4 [|c5 [|c6 [|c7 [|c8
    [|c9 rest]]]]]]]]]]; try discriminate Hlen. reflexivity.
Qed.

Lemma install_channels (number : nat -> Z) (data : nat -> list Z)
    (l : list nat) (o : OPLL) :
  channels_
    (fold_left (fun o c => setup_fixed_instrument (number c) (data c) o) l o)
  = channels_ o
  /\ custom_instrument_
       (fold_left (fun o c => setup_fixed_instrument (number c) (data c) o) l o)
     = custom_instrument_ o.
Proof. rewrite install_rest. split; reflexivity. Qed.

Lemma default_modulators_operators (o : OPLL) :
  operators_ (set_default_modulators ChannelBase o) = operators_ o.
Proof. reflexivity. Qed.

(** The state the constructor's body starts from, and the chip it returns. *)
Lemma construct_some (members : OPLL) audio_divider is_vrc7 o :
  construct members audio_divider is_vrc7 = Some o ->
  o = set_default_modulators ChannelBase
        (install_rhythm_patches ChannelBase percussion_patch_set
           (install_fixed_instruments ChannelBase
              (if is_vrc7 then vrc7_patch_set else opll_patch_set)
              (set_audio_divider ChannelBase members audio_divider))).
Proof.
  rewrite OPLLFacts.construct_unfold.
  destruct (audio_divider <=? 4); [|discriminate].
  intros H. injection H as <-. reflexivity.
Qed.

(** X19.  A constructed chip is well formed: given members with 38 decoded
    operators, 9 channels and 8 custom bytes, and a divider that passes the
    assertion, the constructor returns a chip with the same array sizes, whose
    operators are all within the decoders' ranges after the patches are
    installed, and whose 9 channels all point at the custom instrument
    (modulator slot 0). *)
Theorem constructed_chip_well_formed (members : OPLL) audio_divider is_vrc7 :
  audio_divider <= 4 ->
  length (operators_ members) = 38%nat ->
  length (channels_ members) = 9%nat ->
  length (custom_instrument_ members) = 8%nat ->
  Forall decoded (operators_ members) ->
  exists o,
    construct members audio_divider is_vrc7 = Some o
    /\ well_formed o
    /\ Forall (fun c => modulator ChannelBase c = 0) (channels_ o).
Proof.
  intros Hd Hlo Hlc Hli Hdec.
  assert (E : (audio_divider <=? 4) = true) by lia.
  rewrite OPLLFacts.construct_unfold, E. eexists. split; [reflexivity|].
  set (o0 := set_audio_divider ChannelBase members audio_divider).
  set (patch := if is_vrc7 then vrc7_patch_set else opll_patch_set).
  unfold install_rhythm_patches, install_fixed_instruments.
  set (o1 := fold_left _ (seq 0 15) o0).
  set (o2 := fold_left _ (seq 0 3) o1).
  assert (Hc1 : channels_ o1 = channels_ members
                /\ custom_instrument_ o1 = custom_instrument_ members)
    by (subst o1; exact (install_channels _ _ _ o0)).
  assert (Hc2 : channels_ o2 = channels_ o1
                /\ custom_instrument_ o2 = custom_instrument_ o1)
    by (subst o2; apply install_channels).
  destruct Hc1 as [Hch1 Hcu1]. destruct Hc2 as [Hch2 Hcu2].
  assert (Hlen2 : length (channels_ o2) = 9%nat) by congruence.
  pose proof (default_modulators o2 Hlen2) as Hmods.
  assert (Hops : operators_ (set_default_modulators ChannelBase o2)
                 = operators_ o2) by reflexivity.
  assert (Hcus : custom_instrument_ (set_default_modulators ChannelBase o2)
                 = custom_instrument_ o2) by reflexivity.
  split; [constructor|].
  - rewrite Hops. subst o2 o1. rewrite !install_length. exact Hlo.
  - rewrite Hmods, length_fmap. exact Hlen2.
  - rewrite Hcus, Hcu2, Hcu1. exact Hli.
  - rewrite Hops. subst o2 o1. apply install_decoded, install_decoded, Hdec.
  - rewrite Hmods. apply Forall_fmap, Forall_true. intros c. simpl.
    split; [lia | reflexivity].
  - rewrite Hmods. apply Forall_fmap, Forall_true. intros c. reflexivity.
Qed.

(** X20.  The constructor installs the fixed instruments where the instrument
    register will look for them: instrument [n], for [n] from 1 to 15, is
    operator pair [2n], [2n + 1], patched from the 8 bytes at offset
    [8 (n - 1)] of the OPLL patch set, or of the VRC7 patch set when
    [is_vrc7] is set; the three rhythm patches are pairs 32 to 37, from the
    percussion patch set; slots 0 and 1, the custom instrument, are as the
    members had them. *)
Theorem fixed_instruments_installed (members : OPLL) audio_divider is_vrc7 o :
  construct members audio_divider is_vrc7 = Some o ->
  let patch_set := if is_vrc7 then vrc7_patch_set else opll_patch_set in
  (forall n : nat,
     (1 <= n <= 15)%nat ->
     operators_ o !! (2 * n)%nat
     = modulator_patch (drop (8 * (n - 1)) patch_set)
         <$> operators_ members !! (2 * n)%nat
     /\ operators_ o !! (2 * n + 1)%nat
        = carrier_patch (drop (8 * (n - 1)) patch_set)
            <$> operators_ members !! (2 * n + 1)%nat)
  /\ (forall r : nat,
        (r <= 2)%nat ->
        operators_ o !! (32 + 2 * r)%nat
        = modulator_patch (drop (r * 8) percussion_patch_set)
            <$> operators_ members !! (32 + 2 * r)%nat
        /\ operators_ o !! (33 + 2 * r)%nat
           = carrier_patch (drop (r * 8) percussion_patch_set)
               <$> operators_ members !! (33 + 2 * r)%nat)
  /\ operators_ o !! 0%nat = operators_ members !! 0%nat
  /\ operators_ o !! 1%nat = operators_ members !! 1%nat.
Proof.
  intros Hsome. cbv zeta. apply construct_some in Hsome. subst o.
  set (patch := if is_vrc7 then vrc7_patch_set else opll_patch_set).
  set (o0 := set_audio_divider ChannelBase members audio_divider).
  rewrite !default_modulators_operators.
  unfold install_rhythm_patches, install_fixed_instruments.
  set (fixed := fun c : nat => Z.of_nat c + 1).
  set (rhythm := fun c : nat => Z.of_nat c + 16).
  assert (Hfixed_other : forall i : nat,
             (i < 2 \/ 32 <= i)%nat ->
             forall c, In c (seq 0 15) ->
                       i <> Z.to_nat (fixed c * 2)
                       /\ i <> Z.to_nat (fixed c * 2 + 1)).
  { intros i Hi c Hc. apply in_seq in Hc. subst fixed. cbv beta. lia. }
  assert (Hrhythm_other : forall i : nat,
             (i < 32)%nat ->
             forall c, In c (seq 0 3) ->
                       i <> Z.to_nat (rhythm c * 2)
                       /\ i <> Z.to_nat (rhythm c * 2 + 1)).
  { intros i Hi c Hc. apply in_seq in Hc. subst rhythm. cbv beta. lia. }
  split; [|split; [|split]].
  - intros n Hn.
    rewrite !(install_other rhythm) by (apply Hrhythm_other; lia).
    destruct (install_slot fixed (fun c => drop (8 * c) patch) (seq 0 15)
                (n - 1)%nat o0) as [Hm Hc].
    + apply NoDup_seq.
    + apply in_seq. lia.
    + intros c' _. subst fixed. cbv beta. lia.
    + intros c' _ Hne. subst fixed. cbv beta. lia.
    + cbv zeta in Hm, Hc. subst fixed. cbv beta in Hm, Hc.
      replace (Z.to_nat ((Z.of_nat (n - 1) + 1) * 2)) with (2 * n)%nat
        in Hm by lia.
      replace (Z.to_nat ((Z.of_nat (n - 1) + 1) * 2 + 1)) with (2 * n + 1)%nat
        in Hc by lia.
      split; [exact Hm | exact Hc].
  - intros r Hr.
    destruct (install_slot rhythm
                (fun c => drop (c * 8) percussion_patch_set) (seq 0 3) r
                (fold_left
                   (fun o c =>
                      setup_fixed_instrument (Z.of_nat c + 1)
                        (drop (8 * c) patch) o)
                   (seq 0 15) o0)) as [Hm Hc].
    + apply NoDup_seq.
    + apply in_seq. lia.
    + intros c' _. subst rhythm. cbv beta. lia.
    + intros c' _ Hne. subst rhythm. cbv beta. lia.
    + cbv zeta in Hm, Hc. subst rhythm. cbv beta in Hm, Hc.
      replace (Z.to_nat ((Z.of_nat r + 16) * 2)) with (32 + 2 * r)%nat
        in Hm by lia.
      replace (Z.to_nat ((Z.of_nat r + 16) * 2 + 1)) with (33 + 2 * r)%nat
        in Hc by lia.
      rewrite !(install_other fixed) in Hm, Hc by (apply Hfixed_other; lia).
      split; [exact Hm | exact Hc].
  - rewrite (install_other rhythm) by (apply Hrhythm_other; lia).
    rewrite (install_other fixed) by (apply Hfixed_other; lia). reflexivity.
  - rewrite (install_other rhythm) by (apply Hrhythm_other; lia).
    rewrite (install_other fixed) by (apply Hfixed_other; lia). reflexivity.
Qed.

End Chip.

(** *** The sample chip *)

Lemma zero_chip_well_formed : well_formed unit zero_chip.
Proof.
  constructor; try reflexivity.
  - apply List.Forall_forall. intros x Hx. apply repeat_spec in Hx. subst x.
    exact EnvelopeFacts.zero_operator_decoded.
  - apply List.Forall_forall. intros x Hx. apply repeat_spec in Hx. subst x.
    simpl. split; [lia | reflexivity].
Qed.

Lemma instrument_slots_witness :
  let data := [0x61; 0x61; 0x1e; 0x17; 0xf0; 0x7f; 0x00; 0x17] in
  let o' := setup_fixed_instrument unit 3 data zero_chip in
  0 <= 3
  /\ operators_ unit o' !! Z.to_nat (3 * 2)
     = modulator_patch data <$> operators_ unit zero_chip !! Z.to_nat (3 * 2)
  /\ operators_ unit o' !! Z.to_nat (3 * 2 + 1)
     = carrier_patch data
         <$> operators_ unit zero_chip !! Z.to_nat (3 * 2 + 1).
Proof.
  cbv zeta. assert (H3 : 0 <= 3) by lia. split; [exact H3|].
  pose proof (instrument_slots unit 3
                [0x61; 0x61; 0x1e; 0x17; 0xf0; 0x7f; 0x00; 0x17] zero_chip H3)
    as H.
  cbv zeta in H. destruct H as (Hm & Hc & _). split; [exact Hm | exact Hc].
Defined.

Lemma write_keeps_well_formed_witness :
  0 <= 0xf4 < 256
  /\ well_formed unit zero_chip
  /\ well_formed unit
       (write_register_task unit still_channel still_channel 0x37 0xf4
          zero_chip).
Proof.
  assert (Hv : 0 <= 0xf4 < 256) by lia.
  split; [exact Hv|]. split; [exact zero_chip_well_formed|].
  exact (write_keeps_well_formed unit still_channel still_channel 0x37 0xf4
           zero_chip Hv zero_chip_well_formed).
Defined.

Lemma custom_program_matches_patch_witness :
  let data := [0x61; 0x61; 0x1e; 0x17; 0xf0; 0x7f; 0x00; 0x17] in
  let o' := program_custom unit still_channel still_channel data zero_chip in
  length (custom_instrument_ unit zero_chip) = 8%nat
  /\ operators_ unit zero_chip !! 0%nat = Some zero_operator
  /\ operators_ unit zero_chip !! 1%nat = Some zero_operator
  /\ custom_instrument_ unit o' = map (byte_at data) (seq 0 8)
  /\ operators_ unit o' !! 0%nat = Some (modulator_patch data zero_operator)
  /\ operators_ unit o' !! 1%nat = Some (carrier_patch data zero_operator).
Proof.
  cbv zeta. split; [reflexivity|]. split; [reflexivity|].
  split; [reflexivity|].
  pose proof (custom_program_matches_patch unit still_channel still_channel
                [0x61; 0x61; 0x1e; 0x17; 0xf0; 0x7f; 0x00; 0x17] zero_chip
                zero_operator zero_operator eq_refl eq_refl eq_refl) as H.
  cbv zeta in H. destruct H as (Hb & Hm & Hc & _).
  split; [exact Hb|]. split; [exact Hm | exact Hc].
Defined.

Lemma constructed_chip_well_formed_witness :
  4 <= 4
  /\ length (operators_ unit zero_chip) = 38%nat
  /\ length (channels_ unit zero_chip) = 9%nat
  /\ length (custom_instrument_ unit zero_chip) = 8%nat
  /\ Forall decoded (operators_ unit zero_chip)
  /\ exists o,
       construct unit (repeat 0x61 120) (repeat 0x33 120) (repeat 0x04 24)
         zero_chip 4 true = Some o
       /\ well_formed unit o
       /\ Forall (fun c => modulator unit c = 0) (channels_ unit o).
Proof.
  assert (H4 : 4 <= 4) by lia.
  split; [exact H4|]. split; [reflexivity|]. split; [reflexivity|].
  split; [reflexivity|].
  split; [exact (operators_decoded unit _ zero_chip_well_formed)|].
  exact (constructed_chip_well_formed unit (repeat 0x61 120) (repeat 0x33 120)
           (repeat 0x04 24) zero_chip 4 true H4 eq_refl eq_refl eq_refl
           (operators_decoded unit _ zero_chip_well_formed)).
Defined.

Lemma fixed_instruments_installed_witness :
  exists o,
    construct unit (repeat 0x61 120) (repeat 0x33 120) (repeat 0x04 24)
      zero_chip 1 false = Some o
    /\ operators_ unit o !! 30%nat
       = modulator_patch (drop (8 * 14) (repeat 0x61 120))
           <$> operators_ unit zero_chip !! 30%nat
    /\ operators_ unit o !! 0%nat = operators_ unit zero_chip !! 0%nat.
Proof.
  eexists. split; [reflexivity|].
  pose proof (fixed_instruments_installed unit (repeat 0x61 120)
                (repeat 0x33 120) (repeat 0x04 24) zero_chip 1 false _
                eq_refl) as H.
  cbv zeta in H. destruct H as (Hfixed & _ & H0 & _).
  split; [exact (proj1 (Hfixed 15%nat ltac:(lia))) | exact H0].
Defined.

End InstrumentLaws.

(** ** The OPL2 register file *)
Module OPL2Laws.

Import Int32Facts Operator DecoderFacts OPL2.

(** X21.  The address table of the OPL2 places the 18 operators in three
    blocks of eight offsets: offset [8 b + k] with [b] below 3 and [k] below
    6 is operator [6 b + k], and the other 14 offsets below 32 (the last two
    of each block, and the whole fourth block) map to no operator.  Every
    operator from 0 to 17 has exactly one offset. *)
Theorem operator_addresses :
  (forall offset,
     0 <= offset < 32 ->
     table operator_by_address offset
     = if (offset mod 8 <? 6) && (offset <? 24)
       then 6 * (offset / 8) + offset mod 8
       else -1)
  /\ (forall index,
        0 <= index <= 17 ->
        table operator_by_address (8 * (index / 6) + index mod 6) = index)
  /\ (forall offset offset',
        0 <= offset < 32 -> 0 <= offset' < 32 ->
        table operator_by_address offset <> -1 ->
        table operator_by_address offset = table operator_by_address offset' ->
        offset = offset').
Proof.
  assert (Hmap : forall offset,
             0 <= offset < 32 ->
             table operator_by_address offset
             = if (offset mod 8 <? 6) && (offset <? 24)
               then 6 * (offset / 8) + offset mod 8
               else -1).
  { intros offset Ho.
    pose proof (forall_below
      (fun x => table operator_by_address x
                =? (if (x mod 8 <? 6) && (x <? 24)
                    then 6 * (x / 8) + x mod 8 else -1))
      32 eq_refl offset Ho) as H.
    cbv beta in H. apply Z.eqb_eq in H. exact H. }
  split; [exact Hmap|]. split.
  - intros index Hi.
    pose proof (forall_below
      (fun x => table operator_by_address (8 * (x / 6) + x mod 6) =? x)
      18 eq_refl index ltac:(lia)) as H.
    cbv beta in H. apply Z.eqb_eq in H. exact H.
  - intros a b Ha Hb Hmapped Heq.
    rewrite (Hmap a Ha) in Hmapped, Heq. rewrite (Hmap b Hb) in Heq.
    destruct ((a mod 8 <? 6) && (a <? 24)) eqn:Ea; [|contradiction].
    destruct ((b mod 8 <? 6) && (b <? 24)) eqn:Eb.
    + apply andb_prop in Ea as [Ea1 Ea2]. apply andb_prop in Eb as [Eb1 Eb2].
      Z.div_mod_to_equations. lia.
    + exfalso. apply andb_prop in Ea as [Ea1 Ea2]. Z.div_mod_to_equations. lia.
Qed.

Section Chip.

Variable Channel : Type.
Variable set_frequency_low : Channel -> Z -> Channel.
Variable set_10bit_frequency_octave_key_on : Channel -> Z -> Channel.
Variable set_feedback_mode : Channel -> Z -> Channel.

Local Abbreviation OPL2 := (OPL2.OPL2 Channel).
Local Abbreviation write_register_task :=
  (OPL2.write_register_task Channel set_frequency_low
     set_10bit_frequency_octave_key_on set_feedback_mode).
Local Abbreviation channel_modifications :=
  (OPL2.channel_modifications Channel set_frequency_low
     set_10bit_frequency_octave_key_on set_feedback_mode).
Local Abbreviation operators_ := (OPL2.operators_ Channel).
Local Abbreviation channels_ := (OPL2.channels_ Channel).
Local Abbreviation task_queue_ := (OPL2.task_queue_ Channel).
Local Abbreviation on_operator := (OPL2.on_operator Channel).

Ltac bank_cases :=
  repeat match goal with
         | |- context [match ?p with _ => _ end] => destruct p
         end.

(** A number below 32, case by case. *)
Lemma below_32 (P : Z -> Prop) :
  (forall n : nat, (n < 32)%nat -> P (Z.of_nat n)) ->
  forall x, 0 <= x < 32 -> P x.
Proof.
  intros H x Hx. rewrite <- (Z2Nat.id x) by lia. apply H. lia.
Qed.

Ltac offset_cases :=
  let n := fresh "n" in
  let Hn := fresh "Hn" in
  intros n Hn;
  do 32 (destruct n as [|n]; [repeat split|]); exfalso; lia.

(** X22.  A deferred write into one of the five operator register banks
    ([0x20], [0x40], [0x60], [0x80], [0xe0]) at offset below 32 applies that
    bank's decoder to the one operator the address table gives for the
    offset, and changes nothing else (no other operator, no channel, no mode
    register); at an offset the table leaves unmapped the write changes
    nothing at all. *)
Theorem operator_write offset value (o : OPL2) :
  0 <= offset < 32 ->
  let index := table operator_by_address offset in
  let apply f :=
    if index =? -1 then o else on_operator index (fun p => f p value) o in
  write_register_task (0x20 + offset) value o
  = apply set_am_vibrato_hold_sustain_ksr_multiple
  /\ write_register_task (0x40 + offset) value o = apply set_scaling_output
  /\ write_register_task (0x60 + offset) value o = apply set_attack_decay
  /\ write_register_task (0x80 + offset) value o = apply set_sustain_release
  /\ write_register_task (0xe0 + offset) value o = apply set_waveform.
Proof.
  revert offset. apply below_32. cbv zeta. offset_cases.
Qed.

Lemma below_16 (P : Z -> Prop) :
  (forall n : nat, (n < 16)%nat -> P (Z.of_nat n)) ->
  forall x, 0 <= x < 16 -> P x.
Proof.
  intros H x Hx. rewrite <- (Z2Nat.id x) by lia. apply H. lia.
Qed.

(** X23.  A deferred write into one of the three channel register banks
    ([0xa0], [0xb0], [0xc0]) with low nibble up to 8 applies that bank's
    channel decoder to the one channel the low nibble names, and changes
    nothing else; with a low nibble above 8 it changes nothing, except at
    address [0xbd], the rhythm-control register, which stores the value. *)
Theorem channel_write low value (o : OPL2) :
  0 <= low < 16 ->
  let apply f :=
    if 8 <? low then o
    else OPL2.on_channel Channel low (fun c => f c value) o in
  write_register_task (0xa0 + low) value o = apply set_frequency_low
  /\ write_register_task (0xb0 + low) value o
     = (if low =? 0xd then set_depth_rhythm_control Channel o value
        else apply set_10bit_frequency_octave_key_on)
  /\ write_register_task (0xc0 + low) value o = apply set_feedback_mode.
Proof.
  revert low. apply below_16. cbv zeta. intros n Hn.
  do 16 (destruct n as [|n]; [repeat split|]); exfalso; lia.
Qed.

(** *** What every deferred write keeps *)

Lemma modal_frame address value (o : OPL2) :
  operators_ (modal Channel address value o) = operators_ o
  /\ channels_ (modal Channel address value o) = channels_ o.
Proof. unfold modal. bank_cases; split; reflexivity. Qed.

Lemma channel_modifications_frame address value (o : OPL2) :
  operators_ (channel_modifications address value o) = operators_ o
  /\ length (channels_ (channel_modifications address value o))
     = length (channels_ o).
Proof.
  unfold OPL2.channel_modifications. cbv zeta.
  destruct (8 <? _); [split; reflexivity|].
  destruct (Z.land address 0xf0) as [|p|p]; try (split; reflexivity).
  bank_cases; split; try reflexivity;
    unfold OPL2.on_channel; simpl; apply length_alter.
Qed.

(** X24.  Deferred writes keep the OPL2's operators decoded: whatever the
    address and the value, the operator and channel arrays keep their
    lengths and every operator stays within the decoders' ranges. *)
Theorem write_keeps_decoded address value (o : OPL2) :
  Forall decoded (operators_ o) ->
  let o' := write_register_task address value o in
  Forall decoded (operators_ o')
  /\ length (operators_ o') = length (operators_ o)
  /\ length (channels_ o') = length (channels_ o).
Proof.
  intros Hd. cbv zeta. unfold OPL2.write_register_task. cbv zeta.
  destruct (modal_frame address value o) as [Hmo Hmc].
  set (o1 := modal Channel address value o) in *.
  assert (Hbase : Forall decoded (operators_ (channel_modifications address value o1))
                  /\ length (operators_ (channel_modifications address value o1))
                     = length (operators_ o)
                  /\ length (channels_ (channel_modifications address value o1))
                     = length (channels_ o)).
  { destruct (channel_modifications_frame address value o1) as [E1 E2].
    rewrite E1, E2, Hmo, Hmc. auto. }
  destruct (_ || _); [|exact Hbase].
  destruct (_ =? -1).
  { rewrite Hmo, Hmc. auto. }
  destruct (Z.land address 0xe0) as [|p|p]; try exact Hbase.
  bank_cases; try exact Hbase;
    match goal with
    | |- context [channel_modifications _ _ ?x] =>
        destruct (channel_modifications_frame address value x) as [E1 E2];
        rewrite E1, E2
    end;
    unfold OPL2.on_operator; cbn [OPL2.operators_ OPL2.channels_ set_operators];
    rewrite length_alter, Hmo, Hmc;
    (split; [|split; reflexivity]);
    apply Forall_alter; try exact Hd;
    intros x _ Hx;
    auto using set_attack_decay_decoded, set_sustain_release_decoded,
      set_scaling_output_decoded, set_waveform_decoded,
      set_am_vibrato_hold_sustain_ksr_multiple_decoded.
Qed.

(** *** The timers *)

(** X25.  The three timer registers never go through the queue: a bus write
    to a latched register 2, 3 or 4 stores the value at once in [timers_[0]],
    [timers_[1]] or [timer_control_] and enqueues nothing, and leaves the
    other timer members alone; every other bus write (a register select, or
    a write to another latched register) changes neither timer member.  A
    register select only latches the value; a write to any other latched
    register appends one task to the queue.  No bus write changes an
    operator, a channel or a mode register before the queue is drained.
    Hence a queue that holds no timer task never gets one. *)
Theorem timers_bypass_queue address value (o : OPL2) :
  let o' := write Channel address value o in
  let timer t :=
    task_address t = 2 \/ task_address t = 3 \/ task_address t = 4 in
  operators_ o' = operators_ o
  /\ channels_ o' = channels_ o
  /\ (Forall (fun t => ~ timer t) (task_queue_ o) ->
      Forall (fun t => ~ timer t) (task_queue_ o'))
  /\ (task_queue_ o' = task_queue_ o
      \/ timers_ Channel o' = timers_ Channel o
         /\ timer_control_ Channel o' = timer_control_ Channel o)
  /\ (Z.land address 1 <> 0 -> selected_register_ Channel o = 2 ->
      timers_ Channel o' = <[0%nat := value]> (timers_ Channel o)
      /\ task_queue_ o' = task_queue_ o)
  /\ (Z.land address 1 <> 0 -> selected_register_ Channel o = 3 ->
      timers_ Channel o' = <[1%nat := value]> (timers_ Channel o)
      /\ task_queue_ o' = task_queue_ o)
  /\ (Z.land address 1 <> 0 -> selected_register_ Channel o = 4 ->
      timer_control_ Channel o' = value /\ task_queue_ o' = task_queue_ o)
  /\ (Z.land address 1 = 0
      \/ (selected_register_ Channel o <> 2
          /\ selected_register_ Channel o <> 3
          /\ selected_register_ Channel o <> 4) ->
      timers_ Channel o' = timers_ Channel o
      /\ timer_control_ Channel o' = timer_control_ Channel o)
  /\ (Z.land address 1 = 0 ->
      task_queue_ o' = task_queue_ o
      /\ selected_register_ Channel o' = value)
  /\ (Z.land address 1 <> 0 ->
      selected_register_ Channel o' = selected_register_ Channel o)
  /\ (Z.land address 1 <> 0 ->
      selected_register_ Channel o = 2 \/ selected_register_ Channel o = 3 ->
      timer_control_ Channel o' = timer_control_ Channel o)
  /\ (Z.land address 1 <> 0 -> selected_register_ Channel o = 4 ->
      timers_ Channel o' = timers_ Channel o)
  /\ (Z.land address 1 <> 0 ->
      selected_register_ Channel o <> 2 ->
      selected_register_ Channel o <> 3 ->
      selected_register_ Channel o <> 4 ->
      task_queue_ o'
      = task_queue_ o ++ [mkTask (selected_register_ Channel o) value])
  /\ depth_rhythm_control_ Channel o' = depth_rhythm_control_ Channel o
  /\ csm_keyboard_split_ Channel o' = csm_keyboard_split_ Channel o
  /\ waveform_enable_ Channel o' = waveform_enable_ Channel o.
Proof.
  cbv zeta. unfold OPL2.write.
  destruct (Z.eqb_spec (Z.land address 1) 0) as [E|E]; simpl.
  - repeat split; intros; try reflexivity; try contradiction; auto.
  - unfold OPL2.write_register.
    destruct (Z.eq_dec (selected_register_ Channel o) 2) as [R2|R2];
      [rewrite R2; repeat split; intros; try reflexivity; try discriminate;
       try (intuition congruence); auto|].
    destruct (Z.eq_dec (selected_register_ Channel o) 3) as [R3|R3];
      [rewrite R3; repeat split; intros; try reflexivity; try discriminate;
       try (intuition congruence); auto|].
    destruct (Z.eq_dec (selected_register_ Channel o) 4) as [R4|R4];
      [rewrite R4; repeat split; intros; try reflexivity; try discriminate;
       try (intuition congruence); auto|].
    assert (Hq : (match selected_register_ Channel o with
                  | 2 => set_timers Channel o (<[0%nat := value]> (timers_ Channel o))
                  | 3 => set_timers Channel o (<[1%nat := value]> (timers_ Channel o))
                  | 4 => set_timer_control Channel o value
                  | _ => set_task_queue Channel o
                           (task_queue_ o
                            ++ [mkTask (selected_register_ Channel o) value])
                  end)
                 = set_task_queue Channel o
                     (task_queue_ o
                      ++ [mkTask (selected_register_ Channel o) value])).
    { destruct (selected_register_ Channel o) as [|p|p]; try reflexivity.
      bank_cases; try reflexivity; contradiction. }
    rewrite Hq. simpl.
    repeat split; auto; try (intros; contradiction);
      try (intros; intuition congruence).
    intros Hall. apply Forall_app. split; [exact Hall|].
    constructor; [|constructor]. simpl. intros [H|[H|H]]; contradiction.
Qed.

End Chip.

Lemma operator_write_witness :
  let o := quiet_chip in
  let write := write_register_task unit quiet_channel quiet_channel
                 quiet_channel in
  0 <= 9 < 32
  /\ write (0x60 + 9) 0xf3 o
     = on_operator unit 7 (fun p => set_attack_decay p 0xf3) o
  /\ write (0x60 + 6) 0xf3 o = o.
Proof.
  cbv zeta. assert (H9 : 0 <= 9 < 32) by lia. split; [exact H9|].
  pose proof (operator_write unit quiet_channel quiet_channel quiet_channel
                9 0xf3 quiet_chip H9) as Hmapped.
  pose proof (operator_write unit quiet_channel quiet_channel quiet_channel
                6 0xf3 quiet_chip ltac:(lia)) as Hhole.
  cbv zeta in Hmapped, Hhole.
  destruct Hmapped as (_ & _ & Hm & _). destruct Hhole as (_ & _ & Hh & _).
  split; [exact Hm | exact Hh].
Defined.

Lemma channel_write_witness :
  let o := quiet_chip in
  let write := write_register_task unit quiet_channel quiet_channel
                 quiet_channel in
  0 <= 0xd < 16
  /\ write (0xb0 + 0xd) 0x20 o = set_depth_rhythm_control unit o 0x20
  /\ write (0xa0 + 0xd) 0x20 o = o.
Proof.
  cbv zeta. assert (Hd : 0 <= 0xd < 16) by lia. split; [exact Hd|].
  pose proof (channel_write unit quiet_channel quiet_channel quiet_channel
                0xd 0x20 quiet_chip Hd) as H.
  cbv zeta in H. destruct H as (Ha & Hb & _).
  split; [exact Hb | exact Ha].
Defined.

Lemma quiet_chip_decoded : Forall decoded (operators_ unit quiet_chip).
Proof.
  apply List.Forall_forall. intros x Hx. apply repeat_spec in Hx. subst x.
  exact EnvelopeFacts.zero_operator_decoded.
Qed.

Lemma write_keeps_decoded_witness :
  let o' :=
    write_register_task unit quiet_channel quiet_channel quiet_channel 0x83
      0xff quiet_chip in
  Forall decoded (operators_ unit quiet_chip)
  /\ Forall decoded (operators_ unit o')
  /\ length (operators_ unit o') = length (operators_ unit quiet_chip)
  /\ length (channels_ unit o') = length (channels_ unit quiet_chip).
Proof.
  cbv zeta. split; [exact quiet_chip_decoded|].
  exact (write_keeps_decoded unit quiet_channel quiet_channel quiet_channel
           0x83 0xff quiet_chip quiet_chip_decoded).
Defined.

End OPL2Laws.

(** ** The OPLL output multiplexer *)
Module OutputLaws.

Import Int32 Int32Facts OPLLOutput.

Section Output.

Variable Voices : Type.
Variable update_all_chanels : Voices * list Z -> Voices * list Z.

Local Abbreviation Output := (OPLLOutput.Output Voices).
Local Abbreviation get_sample :=
  (OPLLOutput.get_sample Voices update_all_chanels).
Local Abbreviation get_samples :=
  (OPLLOutput.get_samples Voices update_all_chanels).
Local Abbreviation refresh := (OPLLOutput.refresh Voices update_all_chanels).
Local Abbreviation audio_offset_ := (OPLLOutput.audio_offset_ Voices).
Local Abbreviation audio_divider_ := (OPLLOutput.audio_divider_ Voices).
Local Abbreviation update_period := (OPLLOutput.update_period Voices).
Local Abbreviation output_slot := (OPLLOutput.output_slot Voices).
Local Abbreviation even_divider := (OPLLOutput.even_divider Voices).
Local Abbreviation in_period := (OPLLOutput.in_period Voices).

Lemma refresh_frame (o : Output) :
  audio_divider_ (refresh o) = audio_divider_ o
  /\ audio_offset_ (refresh o) = audio_offset_ o.
Proof.
  unfold OPLLOutput.refresh. destruct (_ =? 0); split; reflexivity.
Qed.

Lemma period_of_divider (o : Output) :
  even_divider o ->
  update_period o = 18 * channel_output_period Voices o
  /\ 1 <= channel_output_period Voices o <= 4.
Proof.
  unfold even_divider, OPLLOutput.update_period, channel_output_period.
  intros [H|[H|H]]; rewrite H; vm_compute; repeat split; intros E;
    discriminate E.
Qed.

Lemma slot_in_range (o : Output) :
  even_divider o -> in_period o -> 0 <= output_slot o <= 17.
Proof.
  intros Hd Hp. destruct (period_of_divider o Hd) as [Hper Hcop].
  unfold in_period in Hp. rewrite Hper in Hp.
  unfold OPLLOutput.output_slot.
  rewrite Z.quot_div_nonneg by lia. Z.div_mod_to_equations. nia.
Qed.

Lemma get_sample_step (o : Output) :
  even_divider o -> in_period o ->
  let o' := snd (get_sample o) in
  audio_divider_ o' = audio_divider_ o
  /\ audio_offset_ o' = (audio_offset_ o + 1) mod update_period o
  /\ in_period o'.
Proof.
  intros Hd Hp. cbv zeta.
  destruct (period_of_divider o Hd) as [Hper Hcop].
  destruct (refresh_frame o) as [Fd Fo].
  unfold in_period in *.
  unfold OPLLOutput.get_sample. cbv zeta.
  cbn [snd OPLLOutput.audio_divider_ OPLLOutput.audio_offset_].
  unfold OPLLOutput.update_period in *.
  cbn [OPLLOutput.audio_divider_]. rewrite Fd, Fo.
  assert (Hadd : Int32.add (audio_offset_ o) 1 = audio_offset_ o + 1).
  { apply wrap_small. unfold in_range, min_int, max_int. lia. }
  rewrite Hadd, Z.rem_mod_nonneg by lia.
  split; [reflexivity|]. split; [reflexivity|].
  apply Z.mod_pos_bound. lia.
Qed.

(** X26.  With an audio divider of 1, 2 or 4 and an offset inside the update
    period [72 / divider], [get_samples] writes exactly the number of samples
    asked for, keeps the divider, advances the offset by that number modulo
    the period, and at every sample reads [output_levels_] at a slot from 0
    to 17, the 18 slots [update_all_chanels] fills. *)
Theorem get_samples_in_slots (n : nat) :
  forall o : Output,
    even_divider o ->
    in_period o ->
    let r := get_samples n o in
    length (fst r) = n
    /\ audio_divider_ (snd r) = audio_divider_ o
    /\ audio_offset_ (snd r)
       = (audio_offset_ o + Z.of_nat n) mod update_period o
    /\ in_period (snd r)
    /\ 0 <= output_slot (refresh o) <= 17
    /\ 0 <= output_slot (refresh (snd r)) <= 17.
Proof.
  assert (Hslot : forall o : Output,
             even_divider o -> in_period o ->
             0 <= output_slot (refresh o) <= 17).
  { intros o Hd Hp. destruct (refresh_frame o) as [Fd Fo].
    apply slot_in_range; unfold even_divider, in_period,
      OPLLOutput.update_period in *; rewrite ?Fd, ?Fo; assumption. }
  induction n as [|n IH]; intros o Hd Hp; cbv zeta.
  - cbn [OPLLOutput.get_samples fst snd length].
    split; [reflexivity|]. split; [reflexivity|].
    split; [|auto].
    unfold in_period in Hp. rewrite Z.add_0_r, Z.mod_small by lia. reflexivity.
  - cbn [OPLLOutput.get_samples fst snd length].
    destruct (get_sample_step o Hd Hp) as (Sd & So & Sp). cbv zeta in Sd, So, Sp.
    set (o1 := snd (get_sample o)) in *.
    assert (Hd1 : even_divider o1) by (unfold even_divider; rewrite Sd; exact Hd).
    assert (Hper : update_period o1 = update_period o)
      by (unfold OPLLOutput.update_period; rewrite Sd; reflexivity).
    destruct (IH o1 Hd1 Sp) as (L & D & O & P & _ & S). cbv zeta in L, D, O, P, S.
    split; [rewrite L; reflexivity|]. split; [congruence|].
    split; [|auto].
    rewrite O, So, Hper, Zplus_mod_idemp_l. f_equal. lia.
Qed.

End Output.

(** With a divider of 3, which the constructor's assertion lets through, the
    update period is 24 and the channel period 1: the multiplexer reads slot
    23. *)
Lemma divider_three_slot :
  let o := mkOutput unit tt (repeat 0 18) 3 23 in
  update_period unit o = 24
  /\ 0 <= audio_offset_ unit o < update_period unit o
  /\ output_slot unit o = 23.
Proof. vm_compute. repeat split; intros H; discriminate H. Qed.

Lemma get_samples_in_slots_witness :
  let o := mkOutput unit tt (repeat 0 18) 2 35 in
  let r := get_samples unit (fun x => x) 5 o in
  even_divider unit o
  /\ in_period unit o
  /\ length (fst r) = 5%nat
  /\ audio_divider_ unit (snd r) = audio_divider_ unit o
  /\ audio_offset_ unit (snd r)
     = (audio_offset_ unit o + Z.of_nat 5) mod update_period unit o
  /\ in_period unit (snd r)
  /\ 0 <= output_slot unit (refresh unit (fun x => x) o) <= 17
  /\ 0 <= output_slot unit (refresh unit (fun x => x) (snd r)) <= 17.
Proof.
  cbv zeta.
  assert (Hd : even_divider unit (mkOutput unit tt (repeat 0 18) 2 35))
    by (right; left; reflexivity).
  assert (Hp : in_period unit (mkOutput unit tt (repeat 0 18) 2 35))
    by (vm_compute; split; [intros E; discriminate E | reflexivity]).
  split; [exact Hd|]. split; [exact Hp|].
  exact (get_samples_in_slots unit (fun x => x) 5 _ Hd Hp).
Defined.

End OutputLaws.
